(** * SQL performance counters: a model of [src/PerformanceCounters.js]

    The engine keeps, per canonical query text, a record of success and
    error counts, duration totals and averages and row counts, together
    with a gauge of running queries and an optional latency baseline.

    Numbers.  The hooks are documented to receive integers.  Counters,
    totals and the gauge are only ever changed by [+= 1], [+=] of an
    integer, [Math.max] and [Math.min], so they are modelled as [Z]; this
    is exact as long as the values stay below 2^53, where double precision
    arithmetic on integers is exact.  The two averages and the three row
    counters are fed by [parseInt], whose argument is a Number that is
    first turned into a string; that path is modelled as ECMAScript
    defines it ([Number_div], [Number_toString], [parseInt]).

    The adapter [onMySQLPromiseConnection] is modelled on the listeners
    it registers, and the earlier revision of the class, with its patch
    of [query], in the module [Legacy]. *)

From Stdlib Require Import ZArith QArith Qpower Qround Ascii String List Lia Lqa.
From stdpp Require Import gmap strings list fin_maps.

Local Open Scope Z_scope.

(** ** ECMAScript fragments used by the engine *)

Module JS.

(** A Number: NaN, an infinity, or [(-1)^neg * m * 2^e] with [m = 0] or
    [2^52 <= m < 2^53].  The exponent is not bounded: quotients of two
    integers below 2^53 stay far inside the range of normal doubles. *)
Inductive Number : Type :=
| NaN
| Infinity (neg : bool)
| Finite (neg : bool) (m e : Z).

(** Result of [parseInt]: an integer or NaN. *)
Inductive IntNumber : Type :=
| JSInt (z : Z)
| JSNaN.

(** Values passed where the engine does not care about the type. *)
Inductive Value : Type :=
| undefined
| null
| VNumber (z : Z)
| VString (s : string)
| VError (message : string).

(** [ToNumber] on the latency slot, which holds [null] or a number:
    [null] converts to [+0]. *)
Definition ToNumber (v : option Z) : Z :=
  match v with
  | None => 0
  | Some z => z
  end.

(** Quotient and remainder rounded to the nearest integer, ties to even. *)
Definition round_nearest_even (num den : Z) : Z :=
  let q := num / den in
  let r := num mod den in
  match 2 * r ?= den with
  | Lt => q
  | Gt => q + 1
  | Eq => if Z.even q then q else q + 1
  end.

(** The double nearest to [p / q], for [p, q > 0], as mantissa and
    exponent. *)
Definition binary64_of_ratio (p q : Z) : Z * Z :=
  let e0 := Z.log2 p - Z.log2 q - 53 in
  let num := if 0 <=? e0 then p else p * 2 ^ (- e0) in
  let den0 := if 0 <=? e0 then q * 2 ^ e0 else q in
  let '(den, e) :=
    if num <? den0 * 2 ^ 53 then (den0, e0) else (2 * den0, e0 + 1) in
  let m := round_nearest_even num den in
  if m =? 2 ^ 53 then (2 ^ 52, e + 1) else (m, e).

(** An integer read as a Number. *)
Definition Number_of_Z (n : Z) : Number :=
  if n =? 0 then Finite false 0 0
  else let '(m, e) := binary64_of_ratio (Z.abs n) 1 in Finite (n <? 0) m e.

(** [a / b] for two integer Numbers. *)
Definition Number_div (a b : Z) : Number :=
  if b =? 0 then (if a =? 0 then NaN else Infinity (a <? 0))
  else if a =? 0 then Finite (b <? 0) 0 0
  else
    let '(m, e) := binary64_of_ratio (Z.abs a) (Z.abs b) in
    Finite (xorb (a <? 0) (b <? 0)) m e.

Definition Qpow (b : Z) (k : Z) : Q := Qpower (inject_Z b) k.

Definition Qlt_bool (x y : Q) : bool := negb (Qle_bool y x).

(** Exact value of a positive finite Number. *)
Definition Qvalue (m e : Z) : Q := Qred (inject_Z m * Qpow 2 e)%Q.

(** [y] rounds to the double [m * 2^e]: it lies between the midpoints to
    the neighbouring doubles, the midpoints included when [m] is even. *)
Definition rounds_to (m e : Z) (y : Q) : bool :=
  let x := Qvalue m e in
  let up := Qpow 2 (e - 1) in
  let down := if m =? 2 ^ 52 then Qpow 2 (e - 2) else Qpow 2 (e - 1) in
  if Z.even m
  then Qle_bool (x - down)%Q y && Qle_bool y (x + up)%Q
  else Qlt_bool (x - down)%Q y && Qlt_bool y (x + up)%Q.

Fixpoint scale_up (fuel : nat) (x : Q) (n : Z) : Z :=
  match fuel with
  | O => n
  | S f => if Qle_bool (Qpow 10 n) x then scale_up f x (n + 1) else n
  end.

Fixpoint scale_down (fuel : nat) (x : Q) (n : Z) : Z :=
  match fuel with
  | O => n
  | S f => if Qle_bool (Qpow 10 (n - 1)) x then n else scale_down f x (n - 1)
  end.

(** The [n] with [10^(n-1) <= x < 10^n], for [x > 0]. *)
Definition decimal_exponent (x : Q) : Z :=
  let fuel := Z.to_nat (Z.log2 (Qnum x) + Z.log2 (Zpos (Qden x)) + 2) in
  scale_down fuel x (scale_up fuel x 0).

(** Step 5 of Number::toString: integers [n], [k], [s] with [k >= 1],
    [10^(k-1) <= s < 10^k], [s * 10^(n-k)] rounding to the Number, [k] as
    small as possible and, among those, [s * 10^(n-k)] closest to it.
    The search tries [k = 1, 2, ...]; for each [k] only the two multiples
    of [10^(n-k)] around the value can be closest.  Returns [(s, k, n)]. *)
Fixpoint shortest_digits (fuel : nat) (k : Z) (m e n0 : Z) : Z * Z * Z :=
  let x := Qvalue m e in
  let unit := Qpow 10 (n0 - k) in
  let lo := Qfloor (x / unit)%Q in
  let hi := lo + 1 in
  let ylo := (inject_Z lo * unit)%Q in
  let yhi := (inject_Z hi * unit)%Q in
  let norm (s : Z) := if s =? 10 ^ k then (10 ^ (k - 1), k, n0 + 1) else (s, k, n0) in
  match rounds_to m e ylo, rounds_to m e yhi with
  | true, false => norm lo
  | false, true => norm hi
  | true, true =>
      match (x - ylo ?= yhi - x)%Q with
      | Lt => norm lo
      | Gt => norm hi
      | Eq => if Z.even lo then norm lo else norm hi
      end
  | false, false =>
      match fuel with
      | O => norm lo
      | S f => shortest_digits f (k + 1) m e n0
      end
  end.

Definition digit_char (d : Z) : ascii := ascii_of_nat (48 + Z.to_nat d).

Fixpoint digits_acc (fuel : nat) (n : Z) (acc : string) : string :=
  let acc' := String (digit_char (n mod 10)) acc in
  match fuel with
  | O => acc'
  | S f => if n <? 10 then acc' else digits_acc f (n / 10) acc'
  end.

(** Decimal digits of a non-negative integer. *)
Definition digits (n : Z) : string :=
  digits_acc (Z.to_nat (Z.log2 n)) n EmptyString.

Fixpoint zeros (n : nat) : string :=
  match n with
  | O => EmptyString
  | S n' => String "0" (zeros n')
  end.

(** Steps 6 to 10 of Number::toString, radix 10. *)
Definition render (s k n : Z) : string :=
  let ds := digits s in
  if (k <=? n) && (n <=? 21) then
    ds +:+ zeros (Z.to_nat (n - k))
  else if (0 <? n) && (n <=? 21) then
    substring 0 (Z.to_nat n) ds +:+ "." +:+ substring (Z.to_nat n) (Z.to_nat (k - n)) ds
  else if (-6 <? n) && (n <=? 0) then
    "0." +:+ zeros (Z.to_nat (- n)) +:+ ds
  else
    let ex := (if 0 <=? n - 1 then "+" else "-") +:+ digits (Z.abs (n - 1)) in
    if k =? 1 then ds +:+ "e" +:+ ex
    else substring 0 1 ds +:+ "." +:+ substring 1 (Z.to_nat (k - 1)) ds +:+ "e" +:+ ex.

(** Number::toString(x), radix 10. *)
Definition Number_toString (x : Number) : string :=
  match x with
  | NaN => "NaN"
  | Infinity neg => if neg then "-Infinity" else "Infinity"
  | Finite neg m e =>
      if m =? 0 then "0"
      else
        let '(s, k, n) := shortest_digits 20 1 m e (decimal_exponent (Qvalue m e)) in
        (if neg then "-" else "") +:+ render s k n
  end.

(** White space and line terminators below U+0080. *)
Definition is_white_space (c : ascii) : bool :=
  let n := nat_of_ascii c in
  ((9 <=? n) && (n <=? 13) || (n =? 32))%nat.

Fixpoint trim_start (s : string) : string :=
  match s with
  | String c s' => if is_white_space c then trim_start s' else s
  | EmptyString => s
  end.

(** Value of a character as a digit, up to radix 36. *)
Definition digit_value (c : ascii) : option Z :=
  let n := Z.of_nat (nat_of_ascii c) in
  if (48 <=? n) && (n <=? 57) then Some (n - 48)
  else if (97 <=? n) && (n <=? 122) then Some (n - 87)
  else if (65 <=? n) && (n <=? 90) then Some (n - 55)
  else None.

(** The longest prefix of radix-[R] digits, as an integer. *)
Fixpoint parse_digits (R : Z) (s : string) (acc : option Z) : option Z :=
  match s with
  | String c s' =>
      match digit_value c with
      | Some d =>
          if d <? R
          then parse_digits R s' (Some (R * match acc with Some a => a | None => 0 end + d))
          else acc
      | None => acc
      end
  | EmptyString => acc
  end.

(** parseInt(string) with the radix argument absent. *)
Definition parseInt_string (input : string) : IntNumber :=
  let S0 := trim_start input in
  let '(sign, S1) :=
    match S0 with
    | String "-" r => (-1, r)
    | String "+" r => (1, r)
    | _ => (1, S0)
    end in
  let '(R, S2) :=
    match S1 with
    | String "0" (String "x" r) => (16, r)
    | String "0" (String "X" r) => (16, r)
    | _ => (10, S1)
    end in
  match parse_digits R S2 None with
  | Some mathInt => JSInt (sign * mathInt)
  | None => JSNaN
  end.

(** parseInt applied to a Number: the argument goes through ToString. *)
Definition parseInt (x : Number) : IntNumber :=
  parseInt_string (Number_toString x).

(** [a += b] where [b] comes from parseInt. *)
Definition add (a b : IntNumber) : IntNumber :=
  match a, b with
  | JSInt x, JSInt y => JSInt (x + y)
  | _, _ => JSNaN
  end.

End JS.

Import JS.

(** The [k] lowest decimal digits of [n], most significant first, put in
    front of [acc]. *)
Fixpoint decimal_acc (k : nat) (n : Z) (acc : string) : string :=
  match k with
  | O => acc
  | S k' => decimal_acc k' (n / 10) (String (digit_char (n mod 10)) acc)
  end.

(** ** The engine state *)

(** One record per canonical query text ([_queryMappings], the object
    literal).  The fields written through parseInt carry its result
    type. *)
Record Metrics : Type := mkMetrics {
  successCount : Z;
  errorCount : Z;
  successMillisecondsTotal : Z;
  errorMillisecondsTotal : Z;
  successMillisecondsAverage : IntNumber;
  errorMillisecondsAverage : IntNumber;
  fetchedRows : IntNumber;
  affectedRows : IntNumber;
  changedRows : IntNumber
}.

(** The instance fields set by the constructor; [None] is [null]. *)
Record PerformanceCounters : Type := mkPerformanceCounters {
  _mapQueryToMetrics : gmap string Metrics;
  _nCurrentlyRunningQueries : Z;
  _nLatencyMilliseconds : option Z
}.

(** [new PerformanceCounters()]. *)
Definition new : PerformanceCounters :=
  {| _mapQueryToMetrics := ∅;
     _nCurrentlyRunningQueries := 0;
     _nLatencyMilliseconds := None |}.

(** The object literal of [_queryMappings]. *)
Definition emptyMetrics : Metrics :=
  {| successCount := 0;
     errorCount := 0;
     successMillisecondsTotal := 0;
     errorMillisecondsTotal := 0;
     successMillisecondsAverage := JSInt 0;
     errorMillisecondsAverage := JSInt 0;
     fetchedRows := JSInt 0;
     affectedRows := JSInt 0;
     changedRows := JSInt 0 |}.

(** A stand-in for the external normalizer, used to run the engine on
    concrete inputs: every decimal digit becomes a question mark. *)
Fixpoint digits_to_marks (s : string) : string :=
  match s with
  | EmptyString => EmptyString
  | String c s' =>
      let n := nat_of_ascii c in
      String (if ((48 <=? n) && (n <=? 57))%nat then "?"%char else c)
             (digits_to_marks s')
  end.

(** A clock for running the adapter on concrete inputs: readings 7 ms
    apart. *)
Definition sample_clock (n : nat) : Z := 1000 + 7 * Z.of_nat n.

(** ** The earlier revision of the class

    [src/unnamed/part_001] holds a revision of [PerformanceCounters] whose
    records keep one row counter, [rowsFetched], whose [onResult]
    receives the result of the query, and which instruments promise-mysql
    through [monkeyPatchPromiseMySQLJSConnection]: the [query] of the
    prototype of the connection's class is replaced by a wrapper. *)

Module Legacy.

Record Metrics : Type := mkMetrics {
  successCount : Z;
  errorCount : Z;
  successMillisecondsTotal : Z;
  errorMillisecondsTotal : Z;
  successMillisecondsAverage : IntNumber;
  errorMillisecondsAverage : IntNumber;
  rowsFetched : Z
}.

Record PerformanceCounters : Type := mkPerformanceCounters {
  _mapQueryToMetrics : gmap string Metrics;
  _nCurrentlyRunningQueries : Z;
  _nLatencyMilliseconds : option Z
}.

(** The object literal of [_queryMappings]. *)
Definition emptyMetrics : Metrics :=
  {| successCount := 0;
     errorCount := 0;
     successMillisecondsTotal := 0;
     errorMillisecondsTotal := 0;
     successMillisecondsAverage := JSInt 0;
     errorMillisecondsAverage := JSInt 0;
     rowsFetched := 0 |}.

(** [new PerformanceCounters()]. *)
Definition new : PerformanceCounters :=
  {| _mapQueryToMetrics := ∅;
     _nCurrentlyRunningQueries := 0;
     _nLatencyMilliseconds := None |}.

(** What [onResult] asks of [mxResult]:
    [mxResult && typeof mxResult.length === "number"].  Lengths are
    integers. *)
Inductive Result : Type :=
| Falsy                        (* undefined, null, an empty string, ... *)
| WithLength (length : Z)      (* truthy, with a [length] that is a number *)
| WithoutLength.               (* truthy, without *)

(** How the promise returned by the driver's [query] settles. *)
Inductive Outcome : Type :=
| Resolved (mxResult : Result)
| Rejected (error : Value).

(** The prototype of the connection's class, as far as the patch goes:
    the flag, and [query] as the engines of the wrappers a call goes
    through, outermost first; the empty list is the driver's own
    [query]. *)
Record Prototype : Type := mkPrototype {
  _bPerformanceCountersPatchApplied : bool;
  query : list nat
}.

(** The engines there are, referred to by position, the prototype, and
    the number of clock readings taken so far. *)
Record World : Type := mkWorld {
  engines : list PerformanceCounters;
  prototype : Prototype;
  clockReads : nat
}.

(** A call of the wrapper that is waiting for [fnOld]: its [self] and its
    [nStartUnixTimeMilliseconds]. *)
Record Call : Type := mkCall {
  self : nat;
  nStartUnixTimeMilliseconds : Z
}.

Section Engine.

Variable unparametrize_sql_query : string → string.
Variable getTime : nat → Z.

Implicit Types (this : PerformanceCounters) (strQuery : string).

(** [onQuery()]. *)
Definition onQuery this : PerformanceCounters :=
  {| _mapQueryToMetrics := _mapQueryToMetrics this;
     _nCurrentlyRunningQueries := _nCurrentlyRunningQueries this + 1;
     _nLatencyMilliseconds := _nLatencyMilliseconds this |}.

(** [_queryMappings(strQuery)]. *)
Definition _queryMappings strQuery this : Metrics * PerformanceCounters :=
  match _mapQueryToMetrics this !! strQuery with
  | Some objMetrics => (objMetrics, this)
  | None =>
      (emptyMetrics,
       {| _mapQueryToMetrics := <[strQuery := emptyMetrics]> (_mapQueryToMetrics this);
          _nCurrentlyRunningQueries := _nCurrentlyRunningQueries this;
          _nLatencyMilliseconds := _nLatencyMilliseconds this |})
  end.

(** A write to the record returned by [_queryMappings] is a write to the
    entry of the map. *)
Definition store strQuery (objMetrics : Metrics) this : PerformanceCounters :=
  {| _mapQueryToMetrics := <[strQuery := objMetrics]> (_mapQueryToMetrics this);
     _nCurrentlyRunningQueries := _nCurrentlyRunningQueries this;
     _nLatencyMilliseconds := _nLatencyMilliseconds this |}.

(** [onResult(strQuery, nDurationMilliseconds, mxResult)]. *)
Definition onResult strQuery (nDurationMilliseconds : Z) (mxResult : Result) this
  : PerformanceCounters :=
  let nDurationMilliseconds :=
    Z.max 0 (nDurationMilliseconds - ToNumber (_nLatencyMilliseconds this)) in
  let strQuery := unparametrize_sql_query strQuery in
  let this :=
    {| _mapQueryToMetrics := _mapQueryToMetrics this;
       _nCurrentlyRunningQueries := Z.max 0 (_nCurrentlyRunningQueries this - 1);
       _nLatencyMilliseconds := _nLatencyMilliseconds this |} in
  let '(objMetrics, this) := _queryMappings strQuery this in
  let count := successCount objMetrics + 1 in
  let total := successMillisecondsTotal objMetrics + nDurationMilliseconds in
  store strQuery
    {| successCount := count;
       errorCount := errorCount objMetrics;
       successMillisecondsTotal := total;
       errorMillisecondsTotal := errorMillisecondsTotal objMetrics;
       successMillisecondsAverage := parseInt (Number_div total count);
       errorMillisecondsAverage := errorMillisecondsAverage objMetrics;
       rowsFetched :=
         match mxResult with
         | WithLength length => rowsFetched objMetrics + length
         | _ => rowsFetched objMetrics
         end |}
    this.

(** [onError(strQuery, nDurationMilliseconds, error)]. *)
Definition onError strQuery (nDurationMilliseconds : Z) (error : Value) this
  : PerformanceCounters :=
  let nDurationMilliseconds :=
    Z.max 0 (nDurationMilliseconds - ToNumber (_nLatencyMilliseconds this)) in
  let strQuery := unparametrize_sql_query strQuery in
  let this :=
    {| _mapQueryToMetrics := _mapQueryToMetrics this;
       _nCurrentlyRunningQueries := Z.max 0 (_nCurrentlyRunningQueries this - 1);
       _nLatencyMilliseconds := _nLatencyMilliseconds this |} in
  let '(objMetrics, this) := _queryMappings strQuery this in
  let count := errorCount objMetrics + 1 in
  let total := errorMillisecondsTotal objMetrics + nDurationMilliseconds in
  store strQuery
    {| successCount := successCount objMetrics;
       errorCount := count;
       successMillisecondsTotal := successMillisecondsTotal objMetrics;
       errorMillisecondsTotal := total;
       successMillisecondsAverage := successMillisecondsAverage objMetrics;
       errorMillisecondsAverage := parseInt (Number_div total count);
       rowsFetched := rowsFetched objMetrics |}
    this.

(** [monkeyPatchPromiseMySQLJSConnection(connection)], called on engine
    [self] with a connection of the class: the wrapper keeps [self] and
    the [query] it replaces, [fnOld]. *)
Definition monkeyPatchPromiseMySQLJSConnection (self : nat) (w : World) : World :=
  if _bPerformanceCountersPatchApplied (prototype w) then w
  else
    {| engines := engines w;
       prototype :=
         {| _bPerformanceCountersPatchApplied := true;
            query := self :: query (prototype w) |};
       clockReads := clockReads w |}.

(** A call of [query], up to the point where the driver's own [query]
    has returned its promise: each wrapper calls [self.onQuery()], reads
    the clock and calls [fnOld].  Returns the waiting wrappers, outermost
    first. *)
Fixpoint enter (wrappers : list nat) (w : World) : list Call * World :=
  match wrappers with
  | [] => ([], w)
  | self :: fnOld =>
      let call :=
        {| self := self; nStartUnixTimeMilliseconds := getTime (clockReads w) |} in
      let w :=
        {| engines := alter onQuery self (engines w);
           prototype := prototype w;
           clockReads := S (clockReads w) |} in
      let '(calls, w) := enter fnOld w in
      (call :: calls, w)
  end.

(** One wrapper resumes after [await]: it reads the clock, reports to
    [self] and hands the result or the error on. *)
Definition resume (strQuery : string) (outcome : Outcome) (w : World) (call : Call) : World :=
  let nDurationMilliseconds :=
    getTime (clockReads w) - nStartUnixTimeMilliseconds call in
  {| engines :=
       alter
         match outcome with
         | Resolved mxResult => onResult strQuery nDurationMilliseconds mxResult
         | Rejected error => onError strQuery nDurationMilliseconds error
         end
         (self call) (engines w);
     prototype := prototype w;
     clockReads := S (clockReads w) |}.

(** The promise of the driver settles: the waiting wrappers resume,
    innermost first, and the caller gets what the last one hands on.
    [strQuery] is the value of [query.sql || query]. *)
Definition settle (strQuery : string) (outcome : Outcome) (calls : list Call) (w : World)
  : World * Outcome :=
  (fold_left (resume strQuery outcome) (rev calls) w, outcome).

End Engine.

End Legacy.

Section Engine.

(** The external package [unparametrize-sql-query], always called with
    the same options: a function from query text to canonical text. *)
Variable unparametrize_sql_query : string → string.

Implicit Types (this : PerformanceCounters) (strQuery : string).

(** [setLatency(nMilliseconds, bReset)]. *)
Definition setLatency (nMilliseconds : Z) (bReset : bool) this
  : PerformanceCounters :=
  if bool_decide (_nLatencyMilliseconds this = None) || bReset
  then
    {| _mapQueryToMetrics := _mapQueryToMetrics this;
       _nCurrentlyRunningQueries := _nCurrentlyRunningQueries this;
       _nLatencyMilliseconds := Some nMilliseconds |}
  else
    {| _mapQueryToMetrics := _mapQueryToMetrics this;
       _nCurrentlyRunningQueries := _nCurrentlyRunningQueries this;
       _nLatencyMilliseconds :=
         Some (Z.min (ToNumber (_nLatencyMilliseconds this)) nMilliseconds) |}.

(** [onQuery()]. *)
Definition onQuery this : PerformanceCounters :=
  {| _mapQueryToMetrics := _mapQueryToMetrics this;
     _nCurrentlyRunningQueries := _nCurrentlyRunningQueries this + 1;
     _nLatencyMilliseconds := _nLatencyMilliseconds this |}.

(** First statement of [onResult] and [onError]:
    [Math.max(0, nDurationMilliseconds - this._nLatencyMilliseconds)]. *)
Definition adjustedDuration this (nDurationMilliseconds : Z) : Z :=
  Z.max 0 (nDurationMilliseconds - ToNumber (_nLatencyMilliseconds this)).

(** [_queryMappings(strQuery)]: the record of the key, created and
    stored when absent.  Returns the record and the engine. *)
Definition _queryMappings strQuery this : Metrics * PerformanceCounters :=
  match _mapQueryToMetrics this !! strQuery with
  | Some objMetrics => (objMetrics, this)
  | None =>
      (emptyMetrics,
       {| _mapQueryToMetrics := <[strQuery := emptyMetrics]> (_mapQueryToMetrics this);
          _nCurrentlyRunningQueries := _nCurrentlyRunningQueries this;
          _nLatencyMilliseconds := _nLatencyMilliseconds this |})
  end.

(** The record is a shared object: a write to it is a write to the entry
    of the map. *)
Definition store strQuery (objMetrics : Metrics) this : PerformanceCounters :=
  {| _mapQueryToMetrics := <[strQuery := objMetrics]> (_mapQueryToMetrics this);
     _nCurrentlyRunningQueries := _nCurrentlyRunningQueries this;
     _nLatencyMilliseconds := _nLatencyMilliseconds this |}.

Definition decrementRunning this : PerformanceCounters :=
  {| _mapQueryToMetrics := _mapQueryToMetrics this;
     _nCurrentlyRunningQueries := Z.max 0 (_nCurrentlyRunningQueries this - 1);
     _nLatencyMilliseconds := _nLatencyMilliseconds this |}.

(** The three assignments of [onResult] to the success fields, then the
    three to the row fields. *)
Definition recordSuccess (nDurationMilliseconds nFetchedRows nAffectedRows nChangedRows : Z)
    (objMetrics : Metrics) : Metrics :=
  let count := successCount objMetrics + 1 in
  let total := successMillisecondsTotal objMetrics + nDurationMilliseconds in
  {| successCount := count;
     errorCount := errorCount objMetrics;
     successMillisecondsTotal := total;
     errorMillisecondsTotal := errorMillisecondsTotal objMetrics;
     successMillisecondsAverage := parseInt (Number_div total count);
     errorMillisecondsAverage := errorMillisecondsAverage objMetrics;
     fetchedRows := add (fetchedRows objMetrics) (parseInt (Number_of_Z nFetchedRows));
     affectedRows := add (affectedRows objMetrics) (parseInt (Number_of_Z nAffectedRows));
     changedRows := add (changedRows objMetrics) (parseInt (Number_of_Z nChangedRows)) |}.

(** The three assignments of [onError]. *)
Definition recordError (nDurationMilliseconds : Z) (objMetrics : Metrics) : Metrics :=
  let count := errorCount objMetrics + 1 in
  let total := errorMillisecondsTotal objMetrics + nDurationMilliseconds in
  {| successCount := successCount objMetrics;
     errorCount := count;
     successMillisecondsTotal := successMillisecondsTotal objMetrics;
     errorMillisecondsTotal := total;
     successMillisecondsAverage := successMillisecondsAverage objMetrics;
     errorMillisecondsAverage := parseInt (Number_div total count);
     fetchedRows := fetchedRows objMetrics;
     affectedRows := affectedRows objMetrics;
     changedRows := changedRows objMetrics |}.

(** [onResult(strQuery, nDurationMilliseconds, nFetchedRows,
    nAffectedRows, nChangedRows)], all arguments given. *)
Definition onResult strQuery (nDurationMilliseconds nFetchedRows nAffectedRows nChangedRows : Z)
    this : PerformanceCounters :=
  let nDurationMilliseconds := adjustedDuration this nDurationMilliseconds in
  let strQuery := unparametrize_sql_query strQuery in
  let this := decrementRunning this in
  let '(objMetrics, this) := _queryMappings strQuery this in
  store strQuery
    (recordSuccess nDurationMilliseconds nFetchedRows nAffectedRows nChangedRows objMetrics)
    this.

(** [onError(strQuery, nDurationMilliseconds, error)]. *)
Definition onError strQuery (nDurationMilliseconds : Z) (error : Value)
    this : PerformanceCounters :=
  let nDurationMilliseconds := adjustedDuration this nDurationMilliseconds in
  let strQuery := unparametrize_sql_query strQuery in
  let this := decrementRunning this in
  let '(objMetrics, this) := _queryMappings strQuery this in
  store strQuery (recordError nDurationMilliseconds objMetrics) this.

(** [clear()]. *)
Definition clear this : PerformanceCounters :=
  {| _mapQueryToMetrics := ∅;
     _nCurrentlyRunningQueries := _nCurrentlyRunningQueries this;
     _nLatencyMilliseconds := _nLatencyMilliseconds this |}.

(** The getters. *)
Definition metrics this : gmap string Metrics := _mapQueryToMetrics this.

Definition runningQueriesCount this : Z := _nCurrentlyRunningQueries this.

(** [objMetrics[strQuery] = value] on an object created by [{}]: the key
    [__proto__] reaches the setter inherited from [Object.prototype] and
    adds no property of the object's own. *)
Definition setProperty (strQuery : string) (value : Metrics)
    (objMetrics : gmap string Metrics) : gmap string Metrics :=
  if bool_decide (strQuery = "__proto__") then objMetrics
  else <[strQuery := value]> objMetrics.

(** [metricsAsObject]: the own properties of the object built by the
    loop over the keys of the map. *)
Definition metricsAsObject this : gmap string Metrics :=
  map_fold setProperty ∅ (_mapQueryToMetrics this).

(** ** Sequences of calls *)

Inductive Hook : Type :=
| SetLatency (nMilliseconds : Z) (bReset : bool)
| OnQuery
| OnResult (strQuery : string) (nDurationMilliseconds nFetchedRows nAffectedRows nChangedRows : Z)
| OnError (strQuery : string) (nDurationMilliseconds : Z) (error : Value)
| Clear.

Definition call (h : Hook) this : PerformanceCounters :=
  match h with
  | SetLatency n b => setLatency n b this
  | OnQuery => onQuery this
  | OnResult q d f a c => onResult q d f a c this
  | OnError q d e => onError q d e this
  | Clear => clear this
  end.

Definition run (hs : list Hook) this : PerformanceCounters :=
  fold_left (λ s h, call h s) hs this.

(** [h] is a completion call whose query has canonical text [k]. *)
Definition completes (h : Hook) (k : string) : Prop :=
  match h with
  | OnResult q _ _ _ _ => unparametrize_sql_query q = k
  | OnError q _ _ => unparametrize_sql_query q = k
  | _ => False
  end.

(** The record the completion hooks start from for key [k]. *)
Definition recordBefore this (k : string) : Metrics :=
  default emptyMetrics (_mapQueryToMetrics this !! k).

(** ** The adapter [onMySQLPromiseConnection]

    The handler of the ["enqueue"] event instruments one sequence of the
    driver: it calls [onQuery], keeps four variables in its closure and
    registers listeners on the sequence.  Event emitters call the
    listeners of an event in the order of their registration, on the list
    as it was when the emission began, and [removeListener] drops the
    most recently added registration of the listener. *)

(** The [n]-th evaluation of [new Date().getTime()]. *)
Variable getTime : nat → Z.

(** [sequence._results[0]] as the handler looks at it. *)
Inductive Result : Type :=
| NoResult                                   (* [_results] or its first element is falsy *)
| Rows (length : Z)                          (* an array of rows *)
| OkPacket (affectedRows changedRows : Z)    (* constructor named OkPacket, no [length] *)
| OtherResult.                               (* another object without [length] *)

(** The three functions registered as listeners. *)
Inductive Listener : Type :=
| fnSaveDuration
| fnOnError
| fnOnEnd.

(** The engine, the instrumented sequence, the variables of the closure
    and the number of clock readings taken so far. *)
Record Instance : Type := mkInstance {
  engine : PerformanceCounters;
  sequence_sql : string;
  sequence_results : Result;
  sequence_listeners : list (string * Listener);
  nStartUnixTimeMilliseconds : Z;
  nDurationMilliseconds : Z;
  error : Value;
  bHandled : bool;
  clockReads : nat
}.

(** Truthiness of a value. *)
Definition ToBoolean (v : Value) : bool :=
  match v with
  | undefined => false
  | null => false
  | VNumber z => negb (z =? 0)
  | VString s => negb (String.eqb s "")
  | VError _ => true
  end.

(** The registrations made by the handler, in order. *)
Definition registered : list (string * Listener) :=
  [("fields", fnSaveDuration); ("error", fnSaveDuration); ("error", fnOnEnd);
   ("error", fnOnError); ("end", fnOnEnd)].

(** The handler of ["enqueue"] for a sequence whose constructor is named
    Query. *)
Definition enqueued (sql : string) (results : Result) this (clock : nat) : Instance :=
  {| engine := onQuery this;
     sequence_sql := sql;
     sequence_results := results;
     sequence_listeners := registered;
     nStartUnixTimeMilliseconds := getTime clock;
     nDurationMilliseconds := 0;
     error := null;
     bHandled := false;
     clockReads := S clock |}.

(** The handler of ["enqueue"]: sequences of another constructor are
    left alone. *)
Definition onEnqueue (constructorName sql : string) (results : Result) this (clock : nat)
  : option Instance :=
  if String.eqb constructorName "Query" then Some (enqueued sql results this clock)
  else None.

Definition listener_eqb (l1 l2 : Listener) : bool :=
  match l1, l2 with
  | fnSaveDuration, fnSaveDuration => true
  | fnOnError, fnOnError => true
  | fnOnEnd, fnOnEnd => true
  | _, _ => false
  end.

Fixpoint removeFirst (name : string) (l : Listener) (ls : list (string * Listener))
  : list (string * Listener) :=
  match ls with
  | [] => []
  | (name', l') :: ls' =>
      if String.eqb name' name && listener_eqb l' l then ls'
      else (name', l') :: removeFirst name l ls'
  end.

(** [sequence.removeListener(name, l)]. *)
Definition removeListener (name : string) (l : Listener) (ls : list (string * Listener))
  : list (string * Listener) :=
  rev (removeFirst name l (rev ls)).

(** [fnSaveDuration]: the clock is read only while the duration is 0. *)
Definition saveDuration (i : Instance) : Instance :=
  if nDurationMilliseconds i =? 0 then
    {| engine := engine i;
       sequence_sql := sequence_sql i;
       sequence_results := sequence_results i;
       sequence_listeners := sequence_listeners i;
       nStartUnixTimeMilliseconds := nStartUnixTimeMilliseconds i;
       nDurationMilliseconds := getTime (clockReads i) - nStartUnixTimeMilliseconds i;
       error := error i;
       bHandled := bHandled i;
       clockReads := S (clockReads i) |}
  else i.

(** [fnOnError(_error)]. *)
Definition onErrorEvent (_error : Value) (i : Instance) : Instance :=
  let i := saveDuration i in
  {| engine := engine i;
     sequence_sql := sequence_sql i;
     sequence_results := sequence_results i;
     sequence_listeners := sequence_listeners i;
     nStartUnixTimeMilliseconds := nStartUnixTimeMilliseconds i;
     nDurationMilliseconds := nDurationMilliseconds i;
     error := _error;
     bHandled := bHandled i;
     clockReads := clockReads i |}.

(** The row counts that [fnOnEnd] reads off [sequence._results[0]]:
    fetched, affected, changed. *)
Definition rowCounts (r : Result) : Z * Z * Z :=
  match r with
  | Rows length => if length =? 0 then (0, 0, 0) else (length, 0, 0)
  | OkPacket affectedRows changedRows => (0, affectedRows, changedRows)
  | _ => (0, 0, 0)
  end.

Definition withEngine (this : PerformanceCounters) (i : Instance) : Instance :=
  {| engine := this;
     sequence_sql := sequence_sql i;
     sequence_results := sequence_results i;
     sequence_listeners := sequence_listeners i;
     nStartUnixTimeMilliseconds := nStartUnixTimeMilliseconds i;
     nDurationMilliseconds := nDurationMilliseconds i;
     error := error i;
     bHandled := bHandled i;
     clockReads := clockReads i |}.

(** [fnOnEnd]. *)
Definition onEndEvent (i : Instance) : Instance :=
  if bHandled i then i
  else
    let i :=
      {| engine := engine i;
         sequence_sql := sequence_sql i;
         sequence_results := sequence_results i;
         sequence_listeners :=
           removeListener "end" fnOnEnd
             (removeListener "error" fnOnEnd
                (removeListener "error" fnOnError
                   (removeListener "fields" fnSaveDuration (sequence_listeners i))));
         nStartUnixTimeMilliseconds := nStartUnixTimeMilliseconds i;
         nDurationMilliseconds := nDurationMilliseconds i;
         error := error i;
         bHandled := true;
         clockReads := clockReads i |} in
    if ToBoolean (error i) then
      let i := saveDuration i in
      withEngine
        (onError (sequence_sql i) (nDurationMilliseconds i) (error i) (engine i)) i
    else
      let '(nFetchedRows, nAffectedRows, nChangedRows) := rowCounts (sequence_results i) in
      let i := saveDuration i in
      withEngine
        (onResult (sequence_sql i) (nDurationMilliseconds i)
           nFetchedRows nAffectedRows nChangedRows (engine i)) i.

Definition invoke (arg : Value) (i : Instance) (l : Listener) : Instance :=
  match l with
  | fnSaveDuration => saveDuration i
  | fnOnError => onErrorEvent arg i
  | fnOnEnd => onEndEvent i
  end.

(** The listeners of event [name], in order of registration. *)
Definition listenersOf (name : string) (ls : list (string * Listener)) : list Listener :=
  List.map snd (List.filter (λ p, String.eqb (fst p) name) ls).

(** [sequence.emit(name, arg)], as far as the listeners of the adapter
    are concerned. *)
Definition emit (name : string) (arg : Value) (i : Instance) : Instance :=
  fold_left (invoke arg) (listenersOf name (sequence_listeners i)) i.

(** What happens to an instrumented sequence: the driver emits an event
    or fills in the results, or some other caller uses the engine. *)
Inductive DriverStep : Type :=
| Emit (name : string) (arg : Value)
| SetResults (r : Result)
| Others (h : Hook).

Definition step (i : Instance) (st : DriverStep) : Instance :=
  match st with
  | Emit name arg => emit name arg i
  | SetResults r =>
      {| engine := engine i;
         sequence_sql := sequence_sql i;
         sequence_results := r;
         sequence_listeners := sequence_listeners i;
         nStartUnixTimeMilliseconds := nStartUnixTimeMilliseconds i;
         nDurationMilliseconds := nDurationMilliseconds i;
         error := error i;
         bHandled := bHandled i;
         clockReads := clockReads i |}
  | Others h => withEngine (call h (engine i)) i
  end.

Definition drive (steps : list DriverStep) (i : Instance) : Instance :=
  fold_left step steps i.

(** [st] is an emission of ["end"] or ["error"]. *)
Definition isTerminal (st : DriverStep) : Prop :=
  match st with
  | Emit name _ => name = "end" ∨ name = "error"
  | _ => False
  end.

(** The registrations and the closure agree: before the completion was
    recorded all five registrations are in place and no error has been
    stored; afterwards one registration is left. *)
Definition wired (i : Instance) : Prop :=
  if bHandled i then sequence_listeners i = [("error", fnSaveDuration)]
  else sequence_listeners i = registered ∧ error i = null.

(** *** One connection instrumented several times

    Each call of [onMySQLPromiseConnection] adds one more handler of
    ["enqueue"], with a closure of its own.  The handlers run in the
    order of the calls, and so do, at each event of the sequence, the
    listeners they registered.  The closures share the engine and the
    clock. *)

(** A closure running on the current engine and clock. *)
Definition resume (this : PerformanceCounters) (clock : nat) (i : Instance) : Instance :=
  {| engine := this;
     sequence_sql := sequence_sql i;
     sequence_results := sequence_results i;
     sequence_listeners := sequence_listeners i;
     nStartUnixTimeMilliseconds := nStartUnixTimeMilliseconds i;
     nDurationMilliseconds := nDurationMilliseconds i;
     error := error i;
     bHandled := bHandled i;
     clockReads := clock |}.

(** The enqueue of one Query sequence on a connection that was passed
    [n] times to [onMySQLPromiseConnection]: the closures made, then the
    engine and the clock. *)
Fixpoint enqueuedBy (n : nat) (sql : string) (results : Result) this (clock : nat)
  : list Instance * PerformanceCounters * nat :=
  match n with
  | O => ([], this, clock)
  | S n' =>
      let i := enqueued sql results this clock in
      let '(closures, this', clock') :=
        enqueuedBy n' sql results (engine i) (clockReads i) in
      (i :: closures, this', clock')
  end.

(** [sequence.emit(name, arg)] with the listeners of every closure. *)
Fixpoint emitAll (name : string) (arg : Value) (closures : list Instance) this (clock : nat)
  : list Instance * PerformanceCounters * nat :=
  match closures with
  | [] => ([], this, clock)
  | i :: rest =>
      let i' := emit name arg (resume this clock i) in
      let '(rest', this', clock') := emitAll name arg rest (engine i') (clockReads i') in
      (i' :: rest', this', clock')
  end.

(** Every stored record has non-negative counters and has counted at
    least one completion. *)
Definition counted this : Prop :=
  ∀ k r, metrics this !! k = Some r →
    0 ≤ successCount r ∧ 0 ≤ errorCount r ∧ 1 ≤ successCount r + errorCount r.

(** ** Quantities read off a sequence of calls *)

(** [h] is an [onResult] whose query has canonical text [k]. *)
Definition isSuccessFor (k : string) (h : Hook) : bool :=
  match h with
  | OnResult q _ _ _ _ => bool_decide (unparametrize_sql_query q = k)
  | _ => false
  end.

(** [h] is an [onError] whose query has canonical text [k]. *)
Definition isErrorFor (k : string) (h : Hook) : bool :=
  match h with
  | OnError q _ _ => bool_decide (unparametrize_sql_query q = k)
  | _ => false
  end.

Definition isOnQuery (h : Hook) : bool :=
  match h with
  | OnQuery => true
  | _ => false
  end.

(** Number of calls in [hs] that satisfy [p]. *)
Definition countCalls (p : Hook → bool) (hs : list Hook) : Z :=
  Z.of_nat (length (List.filter p hs)).

(** What a call would add to the gauge if the gauge had no floor. *)
Definition gaugeDelta (h : Hook) : Z :=
  match h with
  | OnQuery => 1
  | OnResult _ _ _ _ _ => -1
  | OnError _ _ _ => -1
  | _ => 0
  end.

(** Dispatches begun minus dispatches completed. *)
Definition pending (hs : list Hook) : Z :=
  foldr (λ h n, gaugeDelta h + n) 0 hs.

(** No call of [setLatency] in [hs] asks for a reset. *)
Definition noReset (hs : list Hook) : Prop :=
  ∀ ms b, SetLatency ms b ∈ hs → b = false.

(** Totals are not negative, and a side with count 0 has total 0 and
    average 0. *)
Definition totalled this : Prop :=
  ∀ k r, metrics this !! k = Some r →
    0 ≤ successMillisecondsTotal r ∧ 0 ≤ errorMillisecondsTotal r
    ∧ (successCount r = 0 →
       successMillisecondsTotal r = 0 ∧ successMillisecondsAverage r = JSInt 0)
    ∧ (errorCount r = 0 →
       errorMillisecondsTotal r = 0 ∧ errorMillisecondsAverage r = JSInt 0).



(** What an average field holds for a given total and count. *)
Definition averageOf (total count : Z) : IntNumber :=
  if count =? 0 then JSInt 0 else parseInt (Number_div total count).

(** Both averages of every stored record are the ones of its totals and
    counts. *)
Definition averaged this : Prop :=
  ∀ k r, metrics this !! k = Some r →
    successMillisecondsAverage r
    = averageOf (successMillisecondsTotal r) (successCount r)
    ∧ errorMillisecondsAverage r
      = averageOf (errorMillisecondsTotal r) (errorCount r).

(** A total and a count for which the average is shown to be the
    floored quotient: integers that doubles hold exactly, the total
    below 2^51 and either 0 or at least [count / 999999]. *)
Definition floorRange (total count : Z) : Prop :=
  total < 2 ^ 51 ∧ count < 2 ^ 53 ∧ (total = 0 ∨ count ≤ 999999 * total).

(** A total and a count whose quotient is positive and at most
    1/1000001. *)
Definition tinyRange (total count : Z) : Prop :=
  0 < total ∧ count < 2 ^ 53 ∧ 1000001 * total ≤ count.






(** ** The Number path on concrete quotients *)

Example toString_quotients :
  List.map Number_toString
    [Number_div 50 1; Number_div 7 2; Number_div 1 3; Number_div 1 1000000;
     Number_div 1 1000001; Number_div 1 2000000; Number_div 0 9; Number_div 4 0]
  = ["50"; "3.5"; "0.3333333333333333"; "0.000001";
     "9.99999000001e-7"; "5e-7"; "0"; "Infinity"].
Proof. by vm_compute. Qed.

Example parseInt_quotients :
  List.map parseInt
    [Number_div 50 1; Number_div 7 2; Number_div 1 3; Number_div 1 1000000;
     Number_div 1 1000001; Number_div 1 2000000; Number_div 0 9; Number_div 4 0]
  = [JSInt 50; JSInt 3; JSInt 0; JSInt 0; JSInt 9; JSInt 5; JSInt 0; JSNaN].
Proof. by vm_compute. Qed.

Example parseInt_integers :
  List.map (λ n, parseInt (Number_of_Z n)) [0; 3; -12; 9007199254740991]
  = [JSInt 0; JSInt 3; JSInt (-12); JSInt 9007199254740991].
Proof. by vm_compute. Qed.

(** ** Effect of each hook on the fields *)

Lemma run_snoc hs h this : run (hs ++ [h]) this = call h (run hs this).
Proof. unfold run. by rewrite fold_left_app. Qed.

Lemma run_app hs hs' this : run (hs ++ hs') this = run hs' (run hs this).
Proof. unfold run. by rewrite fold_left_app. Qed.

Lemma setLatency_frame n b this :
  metrics (setLatency n b this) = metrics this
  ∧ runningQueriesCount (setLatency n b this) = runningQueriesCount this.
Proof. unfold setLatency. by destruct (_ || _). Qed.

Lemma onResult_metrics q d f a c this :
  metrics (onResult q d f a c this) =
  <[unparametrize_sql_query q :=
      recordSuccess (adjustedDuration this d) f a c
        (recordBefore this (unparametrize_sql_query q))]> (metrics this).
Proof.
  unfold onResult, _queryMappings, recordBefore, metrics. simpl.
  destruct (_mapQueryToMetrics this !! unparametrize_sql_query q) eqn:E; simpl.
  - done.
  - by rewrite insert_insert_eq.
Qed.

Lemma onError_metrics q d e this :
  metrics (onError q d e this) =
  <[unparametrize_sql_query q :=
      recordError (adjustedDuration this d)
        (recordBefore this (unparametrize_sql_query q))]> (metrics this).
Proof.
  unfold onError, _queryMappings, recordBefore, metrics. simpl.
  destruct (_mapQueryToMetrics this !! unparametrize_sql_query q) eqn:E; simpl.
  - done.
  - by rewrite insert_insert_eq.
Qed.

Lemma onResult_frame q d f a c this :
  runningQueriesCount (onResult q d f a c this) = Z.max 0 (runningQueriesCount this - 1)
  ∧ _nLatencyMilliseconds (onResult q d f a c this) = _nLatencyMilliseconds this.
Proof.
  unfold onResult, _queryMappings, runningQueriesCount. simpl.
  by destruct (_mapQueryToMetrics this !! unparametrize_sql_query q).
Qed.

Lemma onError_frame q d e this :
  runningQueriesCount (onError q d e this) = Z.max 0 (runningQueriesCount this - 1)
  ∧ _nLatencyMilliseconds (onError q d e this) = _nLatencyMilliseconds this.
Proof.
  unfold onError, _queryMappings, runningQueriesCount. simpl.
  by destruct (_mapQueryToMetrics this !! unparametrize_sql_query q).
Qed.

Lemma running_call_nonneg h this :
  0 ≤ runningQueriesCount this → 0 ≤ runningQueriesCount (call h this).
Proof.
  intros Hge. destruct h; simpl.
  - by rewrite (proj2 (setLatency_frame _ _ _)).
  - unfold runningQueriesCount in *. simpl. lia.
  - rewrite (proj1 (onResult_frame _ _ _ _ _ _)). lia.
  - rewrite (proj1 (onError_frame _ _ _ _)). lia.
  - done.
Qed.

(** C2: from a fresh engine, after any sequence of calls the gauge of
    running queries is not negative; [onQuery] adds exactly one to it and
    [onResult] and [onError] take one away but stop at zero. *)
Theorem runningQueriesCount_never_negative :
  (∀ hs, 0 ≤ runningQueriesCount (run hs new))
  ∧ (∀ this, runningQueriesCount (onQuery this) = runningQueriesCount this + 1)
  ∧ (∀ q d f a c this,
       runningQueriesCount (onResult q d f a c this)
       = Z.max 0 (runningQueriesCount this - 1))
  ∧ (∀ q d e this,
       runningQueriesCount (onError q d e this)
       = Z.max 0 (runningQueriesCount this - 1)).
Proof.
  split; [|split; [|split]].
  - induction hs as [|h hs IH] using rev_ind.
    + done.
    + rewrite run_snoc. by apply running_call_nonneg.
  - done.
  - intros. apply onResult_frame.
  - intros. apply onError_frame.
Qed.

(** C4: [clear()] leaves both views of the store empty and keeps the
    gauge of running queries and the latency baseline as they were. *)
Theorem clear_resets_only_the_store this :
  metrics (clear this) = ∅
  ∧ metricsAsObject (clear this) = ∅
  ∧ runningQueriesCount (clear this) = runningQueriesCount this
  ∧ _nLatencyMilliseconds (clear this) = _nLatencyMilliseconds this.
Proof.
  split; [reflexivity|]. split; [|by split].
  unfold metricsAsObject, clear. simpl. apply map_fold_empty.
Qed.

(** C5: [setLatency(ms, reset)] stores [ms] when nothing is stored yet
    or [reset] is true, and the smaller of the stored value and [ms]
    otherwise; on a fresh engine 50 then 80 keeps 50, and 80 with reset
    stores 80 whatever was there. *)
Theorem setLatency_keeps_minimum :
  (∀ ms reset this,
     _nLatencyMilliseconds (setLatency ms reset this) =
     match _nLatencyMilliseconds this with
     | None => Some ms
     | Some current => if reset then Some ms else Some (Z.min current ms)
     end)
  ∧ _nLatencyMilliseconds (setLatency 80 false (setLatency 50 false new)) = Some 50
  ∧ (∀ this, _nLatencyMilliseconds (setLatency 80 true this) = Some 80).
Proof.
  split; [|split].
  - intros ms reset this. unfold setLatency.
    destruct (_nLatencyMilliseconds this) as [current|] eqn:E.
    + rewrite bool_decide_eq_false_2 by done. by destruct reset.
    + by rewrite bool_decide_eq_true_2.
  - reflexivity.
  - intros this. unfold setLatency. by rewrite orb_true_r.
Qed.

(** C6: while no latency has been set, the duration that [onResult] and
    [onError] add to the totals is [max(0, durationMs)]: the [null] of
    the latency slot counts as 0 in the subtraction. *)
Theorem uncalibrated_duration_is_floored_input q d f a c e this :
  _nLatencyMilliseconds this = None →
  adjustedDuration this d = Z.max 0 d
  ∧ (∃ r, metrics (onResult q d f a c this) !! unparametrize_sql_query q = Some r
          ∧ successMillisecondsTotal r =
            successMillisecondsTotal (recordBefore this (unparametrize_sql_query q))
            + Z.max 0 d)
  ∧ (∃ r, metrics (onError q d e this) !! unparametrize_sql_query q = Some r
          ∧ errorMillisecondsTotal r =
            errorMillisecondsTotal (recordBefore this (unparametrize_sql_query q))
            + Z.max 0 d).
Proof.
  intros Hnull.
  assert (Hadj : adjustedDuration this d = Z.max 0 d).
  { unfold adjustedDuration. rewrite Hnull. simpl. f_equal. lia. }
  split; [exact Hadj|]. split.
  - eexists. rewrite onResult_metrics, lookup_insert_eq. split; [reflexivity|].
    simpl. by rewrite Hadj.
  - eexists. rewrite onError_metrics, lookup_insert_eq. split; [reflexivity|].
    simpl. by rewrite Hadj.
Qed.

(** C9: the state after [onError] does not depend on the error value. *)
Theorem onError_ignores_error q d (e1 e2 : Value) this :
  onError q d e1 this = onError q d e2 this.
Proof. reflexivity. Qed.

(** C10: [onQuery()] adds one to the gauge of running queries and leaves
    the store, its object view and the latency baseline unchanged. *)
Theorem onQuery_changes_only_the_gauge this :
  runningQueriesCount (onQuery this) = runningQueriesCount this + 1
  ∧ metrics (onQuery this) = metrics this
  ∧ metricsAsObject (onQuery this) = metricsAsObject this
  ∧ _nLatencyMilliseconds (onQuery this) = _nLatencyMilliseconds this.
Proof. by repeat split. Qed.

(** C3: the scenario of the test file, for a normalizer that maps the
    two queries as stated: latency 50, two [onQuery] calls, one
    [onResult] of 100 ms with 3 fetched rows, one [onError] of 53 ms. *)
Theorem end_to_end_scenario (err : Value) :
  unparametrize_sql_query "SELECT 1 FROM table" = "SELECT ? FROM table" →
  unparametrize_sql_query "SELECT 1 FROM another_table" = "SELECT ? FROM another_table" →
  let s0 := setLatency 50 false new in
  let s2 := onQuery (onQuery s0) in
  let s3 := onResult "SELECT 1 FROM table" 100 3 0 0 s2 in
  let s4 := onError "SELECT 1 FROM another_table" 53 err s3 in
  runningQueriesCount s2 = 2
  ∧ adjustedDuration s2 100 = 50
  ∧ runningQueriesCount s3 = 1
  ∧ metrics s3 !! "SELECT ? FROM table" =
      Some {| successCount := 1; errorCount := 0;
              successMillisecondsTotal := 50; errorMillisecondsTotal := 0;
              successMillisecondsAverage := JSInt 50; errorMillisecondsAverage := JSInt 0;
              fetchedRows := JSInt 3; affectedRows := JSInt 0; changedRows := JSInt 0 |}
  ∧ adjustedDuration s3 53 = 3
  ∧ runningQueriesCount s4 = 0
  ∧ metrics s4 !! "SELECT ? FROM another_table" =
      Some {| successCount := 0; errorCount := 1;
              successMillisecondsTotal := 0; errorMillisecondsTotal := 3;
              successMillisecondsAverage := JSInt 0; errorMillisecondsAverage := JSInt 3;
              fetchedRows := JSInt 0; affectedRows := JSInt 0; changedRows := JSInt 0 |}.
Proof.
  intros Htable Hanother s0 s2 s3 s4.
  subst s4 s3. unfold onError, onResult. rewrite Htable, Hanother.
  subst s2 s0. vm_compute. by repeat split.
Qed.

(** *** Which keys have a record *)

Lemma metrics_call_is_Some h this k :
  is_Some (metrics (call h this) !! k)
  ↔ completes h k ∨ (h ≠ Clear ∧ is_Some (metrics this !! k)).
Proof.
  destruct h as [n b| |q d f a c|q d e|]; simpl.
  - rewrite (proj1 (setLatency_frame n b this)).
    split; [by right|]. by intros [[]|[_ Hs]].
  - change (metrics (onQuery this)) with (metrics this).
    split; [by right|]. by intros [[]|[_ Hs]].
  - rewrite onResult_metrics, lookup_insert. case_decide as Hk.
    + split; [by left|]. intros _. by eexists.
    + split; [by right|]. by intros [Hq|[_ Hs]].
  - rewrite onError_metrics, lookup_insert. case_decide as Hk.
    + split; [by left|]. intros _. by eexists.
    + split; [by right|]. by intros [Hq|[_ Hs]].
  - change (metrics (clear this)) with (∅ : gmap string Metrics).
    rewrite lookup_empty. split; [by intros [? ?]|]. by intros [[]|[Hc _]].
Qed.

(** A completion for [k] with no [clear()] after it, one call later. *)
Lemma observed_snoc hs h k :
  (∃ hs1 h' hs2, hs ++ [h] = hs1 ++ h' :: hs2 ∧ completes h' k ∧ Clear ∉ hs2)
  ↔ completes h k
    ∨ (h ≠ Clear ∧ ∃ hs1 h' hs2, hs = hs1 ++ h' :: hs2 ∧ completes h' k ∧ Clear ∉ hs2).
Proof.
  split.
  - intros (hs1 & h' & hs2 & Heq & Hk & Hclear).
    destruct hs2 as [|x hs2 _] using rev_ind.
    + apply app_inj_tail in Heq as [_ ->]. by left.
    + change (hs1 ++ h' :: hs2 ++ [x]) with (hs1 ++ (h' :: hs2) ++ [x]) in Heq.
      rewrite app_assoc in Heq. apply app_inj_tail in Heq as [-> ->].
      apply not_elem_of_app in Hclear as [Hclear Hx].
      right. split.
      * intros ->. apply Hx. by left.
      * by exists hs1, h', hs2.
  - intros [Hk|(Hh & hs1 & h' & hs2 & -> & Hk & Hclear)].
    + exists hs, h, []. split; [done|]. split; [done|]. apply not_elem_of_nil.
    + exists hs1, h', (hs2 ++ [h]). split; [by rewrite <- app_assoc|].
      split; [done|]. apply not_elem_of_app. split; [done|].
      apply not_elem_of_cons. split; [done|]. apply not_elem_of_nil.
Qed.

Lemma recordBefore_counters this k :
  counted this →
  0 ≤ successCount (recordBefore this k) ∧ 0 ≤ errorCount (recordBefore this k).
Proof.
  intros Hc. unfold recordBefore.
  destruct (_mapQueryToMetrics this !! k) as [r|] eqn:E; simpl; [|lia].
  destruct (Hc k r E) as (? & ? & _). lia.
Qed.

Lemma counted_call h this : counted this → counted (call h this).
Proof.
  intros Hc k r. destruct h as [n b| |q d f a c|q d e|]; simpl.
  - rewrite (proj1 (setLatency_frame n b this)). apply Hc.
  - apply Hc.
  - rewrite onResult_metrics, lookup_insert. case_decide as Hk; [|apply Hc].
    intros [= <-]. simpl.
    pose proof (recordBefore_counters this (unparametrize_sql_query q) Hc). lia.
  - rewrite onError_metrics, lookup_insert. case_decide as Hk; [|apply Hc].
    intros [= <-]. simpl.
    pose proof (recordBefore_counters this (unparametrize_sql_query q) Hc). lia.
  - change (metrics (clear this)) with (∅ : gmap string Metrics).
    by rewrite lookup_empty.
Qed.

Lemma counted_run hs : counted (run hs new).
Proof.
  induction hs as [|h hs IH] using rev_ind.
  - intros k r. change (metrics (run [] new)) with (∅ : gmap string Metrics).
    by rewrite lookup_empty.
  - rewrite run_snoc. by apply counted_call.
Qed.

(** C7: after any sequence of calls on a fresh engine, key [k] has a
    record exactly when some [onResult] or [onError] with canonical text
    [k] occurs in the sequence with no [clear()] after it; and every
    stored record has counted at least one success or error. *)
Theorem record_exists_iff_observed_since_clear hs k :
  (is_Some (metrics (run hs new) !! k)
   ↔ ∃ hs1 h hs2, hs = hs1 ++ h :: hs2 ∧ completes h k ∧ Clear ∉ hs2)
  ∧ (∀ r, metrics (run hs new) !! k = Some r →
          1 ≤ successCount r + errorCount r).
Proof.
  split.
  - induction hs as [|h hs IH] using rev_ind.
    + change (metrics (run [] new)) with (∅ : gmap string Metrics).
      rewrite lookup_empty. split; [by intros [? ?]|].
      intros (hs1 & h & hs2 & Heq & _). by destruct hs1.
    + rewrite run_snoc, metrics_call_is_Some, observed_snoc, IH. done.
  - intros r Hr. by destruct (counted_run hs k r Hr) as (_ & _ & ?).
Qed.

(** *** Counters only grow *)

Lemma counters_grow_call h this k r :
  h ≠ Clear →
  metrics this !! k = Some r →
  ∃ r', metrics (call h this) !! k = Some r'
        ∧ successCount r ≤ successCount r' ∧ errorCount r ≤ errorCount r'.
Proof.
  intros Hh Hr. destruct h as [n b| |q d f a c|q d e|]; simpl.
  - rewrite (proj1 (setLatency_frame n b this)). exists r. by rewrite Hr.
  - exists r. split; [exact Hr|lia].
  - rewrite onResult_metrics, lookup_insert. case_decide as Hk.
    + eexists. split; [reflexivity|]. unfold recordBefore.
      rewrite Hk. fold (metrics this). rewrite Hr. simpl. lia.
    + exists r. split; [exact Hr|lia].
  - rewrite onError_metrics, lookup_insert. case_decide as Hk.
    + eexists. split; [reflexivity|]. unfold recordBefore.
      rewrite Hk. fold (metrics this). rewrite Hr. simpl. lia.
    + exists r. split; [exact Hr|lia].
  - done.
Qed.

Lemma counters_grow_run hs' : ∀ this k r,
  Clear ∉ hs' →
  metrics this !! k = Some r →
  ∃ r', metrics (run hs' this) !! k = Some r'
        ∧ successCount r ≤ successCount r' ∧ errorCount r ≤ errorCount r'.
Proof.
  induction hs' as [|h hs' IH]; intros this k r Hclear Hr.
  - exists r. split; [exact Hr|lia].
  - apply not_elem_of_cons in Hclear as [Hh Hclear].
    destruct (counters_grow_call h this k r) as (r1 & Hr1 & ? & ?); [done..|].
    destruct (IH (call h this) k r1 Hclear Hr1) as (r2 & Hr2 & ? & ?).
    exists r2. split; [exact Hr2|lia].
Qed.

(** C8: in a state reached from a fresh engine every record has
    non-negative [successCount] and [errorCount], and further calls that
    include no [clear()] keep the record and decrease neither counter. *)
Theorem counters_never_decrease_until_clear hs hs' k r :
  Clear ∉ hs' →
  metrics (run hs new) !! k = Some r →
  0 ≤ successCount r ∧ 0 ≤ errorCount r
  ∧ ∃ r', metrics (run (hs ++ hs') new) !! k = Some r'
          ∧ successCount r ≤ successCount r' ∧ errorCount r ≤ errorCount r'.
Proof.
  intros Hclear Hr.
  destruct (counted_run hs k r Hr) as (Hs & He & _).
  split; [exact Hs|]. split; [exact He|].
  rewrite run_app. by apply counters_grow_run.
Qed.

(** *** The averages *)

Lemma recordBefore_new k : recordBefore new k = emptyMetrics.
Proof. unfold recordBefore, new. simpl. by rewrite lookup_empty. Qed.

Lemma recordBefore_onResult q d f a c this :
  recordBefore (onResult q d f a c this) (unparametrize_sql_query q)
  = recordSuccess (adjustedDuration this d) f a c
      (recordBefore this (unparametrize_sql_query q)).
Proof.
  unfold recordBefore at 1. fold (metrics (onResult q d f a c this)).
  by rewrite onResult_metrics, lookup_insert_eq.
Qed.

(** What is stored is always [parseInt] of the quotient of the stored
    total and count. *)
Lemma onResult_average q d f a c this :
  ∃ r, metrics (onResult q d f a c this) !! unparametrize_sql_query q = Some r
       ∧ successMillisecondsAverage r
         = parseInt (Number_div (successMillisecondsTotal r) (successCount r)).
Proof. eexists. rewrite onResult_metrics, lookup_insert_eq. by split. Qed.

Lemma onError_average q d e this :
  ∃ r, metrics (onError q d e this) !! unparametrize_sql_query q = Some r
       ∧ errorMillisecondsAverage r
         = parseInt (Number_div (errorMillisecondsTotal r) (errorCount r)).
Proof. eexists. rewrite onError_metrics, lookup_insert_eq. by split. Qed.

(** [n] successes of duration 0 on an engine without latency add [n] to
    the count and nothing to the total. *)
Lemma run_zero_durations q n : ∀ this,
  _nLatencyMilliseconds this = None →
  let this' := run (repeat (OnResult q 0 0 0 0) n) this in
  _nLatencyMilliseconds this' = None
  ∧ successCount (recordBefore this' (unparametrize_sql_query q))
    = successCount (recordBefore this (unparametrize_sql_query q)) + Z.of_nat n
  ∧ successMillisecondsTotal (recordBefore this' (unparametrize_sql_query q))
    = successMillisecondsTotal (recordBefore this (unparametrize_sql_query q)).
Proof.
  induction n as [|n IH]; intros this Hnull.
  - simpl. split; [done|]. split; [lia|done].
  - change (run (repeat (OnResult q 0 0 0 0) (S n)) this)
      with (run (repeat (OnResult q 0 0 0 0) n) (onResult q 0 0 0 0 this)).
    destruct (IH (onResult q 0 0 0 0 this)) as (Hl & Hc & Ht).
    { by rewrite (proj2 (onResult_frame _ _ _ _ _ _)). }
    cbv zeta in *. rewrite Hl, Hc, Ht, recordBefore_onResult.
    unfold adjustedDuration. rewrite Hnull. simpl. split; [done|]. split; lia.
Qed.

Lemma run_zero_durations_new q (n : N) :
  ∃ this, this = run (repeat (OnResult q 0 0 0 0) (N.to_nat n)) new
    ∧ _nLatencyMilliseconds this = None
    ∧ successCount (recordBefore this (unparametrize_sql_query q)) = Z.of_N n
    ∧ successMillisecondsTotal (recordBefore this (unparametrize_sql_query q)) = 0.
Proof.
  eexists. split; [reflexivity|].
  destruct (run_zero_durations q (N.to_nat n) new eq_refl) as (Hnull & Hcount & Htotal).
  split; [exact Hnull|]. split.
  - rewrite Hcount, recordBefore_new. simpl. lia.
  - by rewrite Htotal, recordBefore_new.
Qed.

Lemma recordBefore_onError q d e this :
  recordBefore (onError q d e this) (unparametrize_sql_query q)
  = recordError (adjustedDuration this d)
      (recordBefore this (unparametrize_sql_query q)).
Proof.
  unfold recordBefore at 1. fold (metrics (onError q d e this)).
  by rewrite onError_metrics, lookup_insert_eq.
Qed.

(** The same on the error side. *)
Lemma run_zero_duration_errors q e (n : N) :
  ∃ this, this = run (repeat (OnError q 0 e) (N.to_nat n)) new
    ∧ _nLatencyMilliseconds this = None
    ∧ errorCount (recordBefore this (unparametrize_sql_query q)) = Z.of_N n
    ∧ errorMillisecondsTotal (recordBefore this (unparametrize_sql_query q)) = 0.
Proof.
  eexists. split; [reflexivity|].
  rewrite <- (N2Nat.id n) at 3. rewrite nat_N_Z.
  generalize (N.to_nat n) as m. clear n. intros m.
  induction m as [|m IH] using nat_ind.
  - by rewrite recordBefore_new.
  - change (repeat (OnError q 0 e) (S m))
      with (OnError q 0 e :: repeat (OnError q 0 e) m).
    rewrite repeat_cons, run_snoc.
    destruct IH as (Hnull & Hcount & Htotal).
    generalize dependent (run (repeat (OnError q 0 e) m) new). intros this Hnull Hcount Htotal.
    unfold call. rewrite (proj2 (onError_frame _ _ _ _)), recordBefore_onError.
    unfold adjustedDuration. rewrite Hnull. simpl. split; [done|]. split; lia.
Qed.

Lemma error_average_is_not_the_floor e :
  let hooks :=
    repeat (OnError "SELECT 1" 0 e) (N.to_nat 1999999) ++ [OnError "SELECT 1" 1 e] in
  ∃ r, metrics (run hooks new) !! unparametrize_sql_query "SELECT 1" = Some r
       ∧ errorCount r = 2000000
       ∧ errorMillisecondsTotal r = 1
       ∧ errorMillisecondsAverage r = JSInt 5
       ∧ errorMillisecondsTotal r / errorCount r = 0.
Proof.
  intros hooks. subst hooks. rewrite run_snoc.
  destruct (run_zero_duration_errors "SELECT 1" e 1999999)
    as (this & <- & Hnull & Hcount & Htotal).
  unfold call.
  eexists. rewrite onError_metrics, lookup_insert_eq. split; [reflexivity|].
  unfold recordError, adjustedDuration.
  cbv [errorCount errorMillisecondsTotal errorMillisecondsAverage].
  fold (errorCount (recordBefore this (unparametrize_sql_query "SELECT 1"))).
  fold (errorMillisecondsTotal (recordBefore this (unparametrize_sql_query "SELECT 1"))).
  rewrite Hcount, Htotal, Hnull.
  by vm_compute.
Qed.

(** C1, at a reachable state: after 1,999,999 successes of 0 ms and one
    of 1 ms for the same query, the record holds count 2,000,000 and
    total 1, whose floored quotient is 0, and the stored average is 5:
    the quotient 5e-7 is turned into the text [5e-7] and [parseInt] stops
    at the letter. *)
Theorem success_average_is_not_the_floor :
  let hooks :=
    repeat (OnResult "SELECT 1" 0 0 0 0) (N.to_nat 1999999)
    ++ [OnResult "SELECT 1" 1 0 0 0] in
  ∃ r, metrics (run hooks new) !! unparametrize_sql_query "SELECT 1" = Some r
       ∧ successCount r = 2000000
       ∧ successMillisecondsTotal r = 1
       ∧ successMillisecondsAverage r = JSInt 5
       ∧ successMillisecondsTotal r / successCount r = 0.
Proof.
  intros hooks. subst hooks. rewrite run_snoc.
  destruct (run_zero_durations_new "SELECT 1" 1999999)
    as (this & <- & Hnull & Hcount & Htotal).
  unfold call.
  eexists. rewrite onResult_metrics, lookup_insert_eq. split; [reflexivity|].
  unfold recordSuccess, adjustedDuration.
  cbv [successCount successMillisecondsTotal successMillisecondsAverage].
  fold (successCount (recordBefore this (unparametrize_sql_query "SELECT 1"))).
  fold (successMillisecondsTotal (recordBefore this (unparametrize_sql_query "SELECT 1"))).
  rewrite Hcount, Htotal, Hnull.
  by vm_compute.
Qed.

(** ** Further properties of the engine *)



Lemma lookup_call_other h k this :
  h ≠ Clear → ¬ completes h k →
  metrics (call h this) !! k = metrics this !! k.
Proof.
  intros Hh Hk. destruct h as [n b| |q d f a c|q d e|]; simpl in *.
  - by rewrite (proj1 (setLatency_frame n b this)).
  - done.
  - by rewrite onResult_metrics, lookup_insert_ne.
  - by rewrite onError_metrics, lookup_insert_ne.
  - done.
Qed.

(** X1: a call that is neither [clear()] nor a completion for key [k]
    leaves the entry of [k] in the store exactly as it was, present or
    absent. *)
Theorem other_keys_untouched h k this :
  h ≠ Clear → ¬ completes h k →
  metrics (call h this) !! k = metrics this !! k.
Proof. apply lookup_call_other. Qed.

Lemma recordBefore_other h k this :
  h ≠ Clear → ¬ completes h k →
  recordBefore (call h this) k = recordBefore this k.
Proof.
  intros Hh Hk. unfold recordBefore.
  fold (metrics (call h this)). fold (metrics this).
  by rewrite lookup_call_other.
Qed.

Lemma countCalls_cons p h hs :
  countCalls p (h :: hs) = (if p h then 1 else 0) + countCalls p hs.
Proof. unfold countCalls. simpl. destruct (p h); simpl; lia. Qed.

Lemma counters_after_call h k this :
  h ≠ Clear →
  successCount (recordBefore (call h this) k)
  = successCount (recordBefore this k) + (if isSuccessFor k h then 1 else 0)
  ∧ errorCount (recordBefore (call h this) k)
    = errorCount (recordBefore this k) + (if isErrorFor k h then 1 else 0).
Proof.
  intros Hh.
  destruct h as [n b| |q d f a c|q d e|]; simpl isSuccessFor; simpl isErrorFor;
    try (rewrite recordBefore_other by (done || by intros []); lia).
  - case_bool_decide as Hk.
    + subst k. simpl call. rewrite recordBefore_onResult. simpl. lia.
    + rewrite recordBefore_other by done. lia.
  - case_bool_decide as Hk.
    + subst k. simpl call. rewrite recordBefore_onError. simpl. lia.
    + rewrite recordBefore_other by done. lia.
Qed.

Lemma counters_after_run hs : ∀ k this,
  Clear ∉ hs →
  successCount (recordBefore (run hs this) k)
  = successCount (recordBefore this k) + countCalls (isSuccessFor k) hs
  ∧ errorCount (recordBefore (run hs this) k)
    = errorCount (recordBefore this k) + countCalls (isErrorFor k) hs.
Proof.
  induction hs as [|h hs IH]; intros k this Hclear.
  - unfold countCalls. simpl. lia.
  - apply not_elem_of_cons in Hclear as [Hh Hclear].
    change (run (h :: hs) this) with (run hs (call h this)).
    destruct (IH k (call h this) Hclear) as [-> ->].
    destruct (counters_after_call h k this) as [-> ->]; [done|].
    rewrite !countCalls_cons. lia.
Qed.

(** X2: when no [clear()] occurs in [hs], running [hs] on a cleared (or
    fresh) engine leaves, for every key [k], a [successCount] equal to
    the number of [onResult] calls of [hs] with canonical text [k] and an
    [errorCount] equal to the number of such [onError] calls; a key with
    no record counts as 0. *)
Theorem counters_count_completions hs k this :
  Clear ∉ hs →
  successCount (recordBefore (run hs (clear this)) k) = countCalls (isSuccessFor k) hs
  ∧ errorCount (recordBefore (run hs (clear this)) k) = countCalls (isErrorFor k) hs.
Proof.
  intros Hclear.
  destruct (counters_after_run hs k (clear this) Hclear) as [-> ->].
  assert (Hr : recordBefore (clear this) k = emptyMetrics).
  { unfold recordBefore, clear. simpl. by rewrite lookup_empty. }
  rewrite Hr. simpl. lia.
Qed.

(** *** Totals, and the fields of a side that has not counted yet *)

Lemma adjustedDuration_nonneg this d : 0 ≤ adjustedDuration this d.
Proof. unfold adjustedDuration. lia. Qed.

Lemma recordBefore_totalled this k :
  counted this → totalled this →
  let r := recordBefore this k in
  0 ≤ successCount r ∧ 0 ≤ errorCount r
  ∧ 0 ≤ successMillisecondsTotal r ∧ 0 ≤ errorMillisecondsTotal r
  ∧ (successCount r = 0 →
     successMillisecondsTotal r = 0 ∧ successMillisecondsAverage r = JSInt 0)
  ∧ (errorCount r = 0 →
     errorMillisecondsTotal r = 0 ∧ errorMillisecondsAverage r = JSInt 0).
Proof.
  intros Hc Ht. unfold recordBefore. fold (metrics this).
  destruct (metrics this !! k) as [r|] eqn:E; simpl.
  - destruct (Hc k r E) as (? & ? & _). destruct (Ht k r E) as (? & ? & ? & ?).
    by split_and!.
  - split_and!; (lia || by intros _).
Qed.

Lemma totalled_call h this :
  counted this → totalled this → totalled (call h this).
Proof.
  intros Hc Ht k r. destruct h as [n b| |q d f a c|q d e|]; simpl.
  - rewrite (proj1 (setLatency_frame n b this)). apply Ht.
  - apply Ht.
  - rewrite onResult_metrics, lookup_insert. case_decide as Hk; [|apply Ht].
    intros [= <-].
    destruct (recordBefore_totalled this (unparametrize_sql_query q) Hc Ht)
      as (? & ? & ? & ? & ? & ?).
    pose proof (adjustedDuration_nonneg this d). simpl.
    split; [lia|]. split; [lia|]. split; [lia|done].
  - rewrite onError_metrics, lookup_insert. case_decide as Hk; [|apply Ht].
    intros [= <-].
    destruct (recordBefore_totalled this (unparametrize_sql_query q) Hc Ht)
      as (? & ? & ? & ? & ? & ?).
    pose proof (adjustedDuration_nonneg this d). simpl.
    split; [lia|]. split; [lia|]. split; [done|lia].
  - change (metrics (clear this)) with (∅ : gmap string Metrics).
    by rewrite lookup_empty.
Qed.

Lemma totalled_run hs : totalled (run hs new).
Proof.
  induction hs as [|h hs IH] using rev_ind.
  - intros k r. change (metrics (run [] new)) with (∅ : gmap string Metrics).
    by rewrite lookup_empty.
  - rewrite run_snoc. apply totalled_call; [apply counted_run|done].
Qed.

(** X3: in every state reached from a fresh engine, a record that has
    counted no success has success total 0 and success average 0, and a
    record that has counted no error has error total 0 and error average
    0. *)
Theorem uncounted_side_is_zero hs k r :
  metrics (run hs new) !! k = Some r →
  (successCount r = 0 →
   successMillisecondsTotal r = 0 ∧ successMillisecondsAverage r = JSInt 0)
  ∧ (errorCount r = 0 →
     errorMillisecondsTotal r = 0 ∧ errorMillisecondsAverage r = JSInt 0).
Proof. intros Hr. by destruct (totalled_run hs k r Hr) as (_ & _ & ? & ?). Qed.

Lemma completes_or_not h k : completes h k ∨ ¬ completes h k.
Proof.
  destruct h as [n b| |q d f a c|q d e|]; simpl; try (by right; intros []).
  - destruct (decide (unparametrize_sql_query q = k)); auto.
  - destruct (decide (unparametrize_sql_query q = k)); auto.
Qed.

Lemma totals_grow_call h this k r :
  h ≠ Clear →
  metrics this !! k = Some r →
  ∃ r', metrics (call h this) !! k = Some r'
        ∧ successMillisecondsTotal r ≤ successMillisecondsTotal r'
        ∧ errorMillisecondsTotal r ≤ errorMillisecondsTotal r'.
Proof.
  intros Hh Hr. destruct (completes_or_not h k) as [Hk|Hk].
  - pose proof (adjustedDuration_nonneg this) as Hadj.
    destruct h as [n b| |q d f a c|q d e|]; simpl in Hk; try done; subst k; simpl.
    + eexists. rewrite onResult_metrics, lookup_insert_eq. split; [reflexivity|].
      unfold recordBefore. fold (metrics this). rewrite Hr. simpl.
      specialize (Hadj d). lia.
    + eexists. rewrite onError_metrics, lookup_insert_eq. split; [reflexivity|].
      unfold recordBefore. fold (metrics this). rewrite Hr. simpl.
      specialize (Hadj d). lia.
  - exists r. rewrite lookup_call_other by done. split; [done|lia].
Qed.

Lemma totals_grow_run hs' : ∀ this k r,
  Clear ∉ hs' →
  metrics this !! k = Some r →
  ∃ r', metrics (run hs' this) !! k = Some r'
        ∧ successMillisecondsTotal r ≤ successMillisecondsTotal r'
        ∧ errorMillisecondsTotal r ≤ errorMillisecondsTotal r'.
Proof.
  induction hs' as [|h hs' IH]; intros this k r Hclear Hr.
  - exists r. split; [exact Hr|lia].
  - apply not_elem_of_cons in Hclear as [Hh Hclear].
    destruct (totals_grow_call h this k r) as (r1 & Hr1 & ? & ?); [done..|].
    destruct (IH (call h this) k r1 Hclear Hr1) as (r2 & Hr2 & ? & ?).
    exists r2. split; [exact Hr2|lia].
Qed.

(** X4: the two duration totals of a record are never negative in a
    state reached from a fresh engine, and calls that include no
    [clear()] keep the record and decrease neither total, whatever
    durations and latencies are passed. *)
Theorem totals_never_negative_nor_decrease hs hs' k r :
  Clear ∉ hs' →
  metrics (run hs new) !! k = Some r →
  0 ≤ successMillisecondsTotal r ∧ 0 ≤ errorMillisecondsTotal r
  ∧ ∃ r', metrics (run (hs ++ hs') new) !! k = Some r'
          ∧ successMillisecondsTotal r ≤ successMillisecondsTotal r'
          ∧ errorMillisecondsTotal r ≤ errorMillisecondsTotal r'.
Proof.
  intros Hclear Hr.
  destruct (totalled_run hs k r Hr) as (Hs & He & _).
  split; [exact Hs|]. split; [exact He|].
  rewrite run_app. by apply totals_grow_run.
Qed.

(** *** The gauge against the calls made *)

Lemma pending_snoc hs h : pending (hs ++ [h]) = pending hs + gaugeDelta h.
Proof.
  unfold pending. induction hs as [|x hs IH]; simpl; [lia|]. rewrite IH. lia.
Qed.

Lemma countCalls_snoc p hs h :
  countCalls p (hs ++ [h]) = countCalls p hs + (if p h then 1 else 0).
Proof.
  unfold countCalls. rewrite List.filter_app, length_app. simpl.
  destruct (p h); simpl; lia.
Qed.

Lemma gauge_call h this :
  runningQueriesCount (call h this)
  = if gaugeDelta h =? -1 then Z.max 0 (runningQueriesCount this - 1)
    else runningQueriesCount this + gaugeDelta h.
Proof.
  destruct h as [n b| |q d f a c|q d e|]; simpl.
  - rewrite (proj2 (setLatency_frame n b this)). lia.
  - done.
  - apply onResult_frame.
  - apply onError_frame.
  - unfold runningQueriesCount. simpl. lia.
Qed.

(** X5: if in every prefix of [hs] at least as many dispatches were
    begun by [onQuery] as were completed by [onResult] or [onError], then
    on a fresh engine the gauge after [hs] is exactly the number begun
    minus the number completed. *)
Theorem gauge_exact_when_matched hs :
  (∀ n, 0 ≤ pending (take n hs)) →
  runningQueriesCount (run hs new) = pending hs.
Proof.
  induction hs as [|h hs IH] using rev_ind; intros Hpre.
  - done.
  - assert (Hhs : ∀ n, 0 ≤ pending (take n hs)).
    { intros n. destruct (decide (n ≤ length hs)%nat) as [Hn|Hn].
      - specialize (Hpre n). by rewrite take_app_le in Hpre.
      - specialize (Hpre (length hs)). rewrite take_app_length in Hpre.
        rewrite take_ge by lia. done. }
    specialize (IH Hhs).
    specialize (Hpre (S (length hs))).
    rewrite take_ge in Hpre by (rewrite length_app; simpl; lia).
    rewrite pending_snoc in *. rewrite run_snoc, gauge_call, IH.
    destruct h; simpl in *; lia.
Qed.

(** X6: on a fresh engine, after any calls, the gauge is at least the
    number of dispatches begun minus the number completed and at most the
    number of [onQuery] calls. *)
Theorem gauge_between_pending_and_begun hs :
  pending hs ≤ runningQueriesCount (run hs new)
  ∧ runningQueriesCount (run hs new) ≤ countCalls isOnQuery hs.
Proof.
  induction hs as [|h hs IH] using rev_ind.
  - by compute.
  - rewrite pending_snoc, countCalls_snoc, run_snoc, gauge_call.
    destruct IH as [Hlow Hhigh].
    assert (Hc : 0 ≤ countCalls isOnQuery hs) by (unfold countCalls; lia).
    revert Hlow Hhigh Hc.
    generalize (runningQueriesCount (run hs new)) (pending hs)
               (countCalls isOnQuery hs).
    intros g p c Hlow Hhigh Hc. destruct h; simpl; lia.
Qed.

(** *** The latency baseline over a sequence of calls *)

Lemma latency_call h this :
  _nLatencyMilliseconds (call h this) =
  match h with
  | SetLatency ms b =>
      match _nLatencyMilliseconds this with
      | None => Some ms
      | Some current => if b then Some ms else Some (Z.min current ms)
      end
  | _ => _nLatencyMilliseconds this
  end.
Proof.
  destruct h as [ms b| |q d f a c|q d e|]; simpl; try done.
  - unfold setLatency. destruct (_nLatencyMilliseconds this) as [current|] eqn:E.
    + rewrite bool_decide_eq_false_2 by done. by destruct b.
    + by rewrite bool_decide_eq_true_2.
  - apply onResult_frame.
  - apply onError_frame.
Qed.

(** X7: on a fresh engine, after calls among which no [setLatency] asks
    for a reset, the stored latency is one of the values that were passed
    and is not above any of them: it is their minimum. *)
Theorem latency_is_minimum_without_reset hs :
  noReset hs →
  (∀ ms, SetLatency ms false ∈ hs →
     ∃ l, _nLatencyMilliseconds (run hs new) = Some l ∧ l ≤ ms)
  ∧ (∀ l, _nLatencyMilliseconds (run hs new) = Some l → SetLatency l false ∈ hs).
Proof.
  induction hs as [|h hs IH] using rev_ind; intros Hno.
  - split; [by intros ms ?%elem_of_nil|done].
  - assert (Hhs : noReset hs).
    { intros ms b Hin. apply (Hno ms b). apply elem_of_app. by left. }
    destruct (IH Hhs) as [IHle IHin]. rewrite run_snoc, latency_call.
    destruct h as [ms b| |q d f a c|q d e|];
      try (split;
           [intros ms' [Hin|Hin%list_elem_of_singleton]%elem_of_app; [by apply IHle|done]
           |intros l Hl; apply elem_of_app; left; by apply IHin]).
    assert (b = false) as ->.
    { apply (Hno ms b). apply elem_of_app. right. by apply list_elem_of_singleton. }
    destruct (_nLatencyMilliseconds (run hs new)) as [current|] eqn:E.
    + split.
      * intros ms' [Hin|Hin%list_elem_of_singleton]%elem_of_app.
        -- destruct (IHle ms' Hin) as (l & [= <-] & Hle).
           eexists. split; [reflexivity|lia].
        -- injection Hin as ->. eexists. split; [reflexivity|lia].
      * intros l [= <-]. apply elem_of_app.
        destruct (Z.min_spec current ms) as [[_ ->]|[_ ->]].
        -- left. by apply IHin.
        -- right. by apply list_elem_of_singleton.
    + split.
      * intros ms' [Hin|Hin%list_elem_of_singleton]%elem_of_app.
        -- by destruct (IHle ms' Hin) as (l & ? & _).
        -- injection Hin as ->. eexists. split; [reflexivity|lia].
      * intros l [= <-]. apply elem_of_app. right. by apply list_elem_of_singleton.
Qed.

(** *** The object view *)

(** X8: [metricsAsObject] has, under every key other than ["__proto__"],
    exactly what the map has under that key, and never has a property of
    its own named ["__proto__"], even when the map holds a record under
    that key. *)
Theorem metricsAsObject_lookup this k :
  metricsAsObject this !! k
  = if bool_decide (k = "__proto__") then None else metrics this !! k.
Proof.
  unfold metricsAsObject, metrics. revert k.
  apply (map_fold_weak_ind
           (λ (o : gmap string Metrics) (m : gmap string Metrics),
              ∀ k, o !! k = if bool_decide (k = "__proto__") then None else m !! k)).
  - intros k. rewrite !lookup_empty. by case_bool_decide.
  - intros i x m o Hi IH k. unfold setProperty.
    case_bool_decide as Hproto.
    + rewrite IH. case_bool_decide as Hk; [done|].
      rewrite lookup_insert_ne; [done|congruence].
    + destruct (decide (i = k)) as [->|Hik].
      * rewrite !lookup_insert_eq. by rewrite bool_decide_eq_false_2.
      * rewrite !lookup_insert_ne by done. apply IH.
Qed.

(** *** Get-or-create *)

(** X9: [_queryMappings(k)] returns the record that the resulting store
    holds under [k]; it changes no other key, nor the gauge, nor the
    latency; when [k] already had a record the engine is unchanged; and a
    second call returns the same record and changes nothing more. *)
Theorem queryMappings_get_or_create k this :
  let '(objMetrics, this') := _queryMappings k this in
  metrics this' !! k = Some objMetrics
  ∧ objMetrics = recordBefore this k
  ∧ (∀ k', k' ≠ k → metrics this' !! k' = metrics this !! k')
  ∧ runningQueriesCount this' = runningQueriesCount this
  ∧ _nLatencyMilliseconds this' = _nLatencyMilliseconds this
  ∧ (is_Some (metrics this !! k) → this' = this)
  ∧ _queryMappings k this' = (objMetrics, this').
Proof.
  unfold _queryMappings, recordBefore, metrics.
  destruct (_mapQueryToMetrics this !! k) as [r|] eqn:E; simpl.
  - rewrite E. by split_and!.
  - rewrite lookup_insert_eq.
    split_and!; try done; try (by intros [? ?]).
    intros k' Hk'. by rewrite lookup_insert_ne.
Qed.

(** *** The two sides of a record *)

(** X10: [onError] leaves the success fields and the three row counters
    of its record as they were, and [onResult] leaves the three error
    fields as they were. *)
Theorem success_and_error_sides_are_separate q d f a c e this :
  let k := unparametrize_sql_query q in
  let r := recordBefore this k in
  let re := recordBefore (onError q d e this) k in
  let rs := recordBefore (onResult q d f a c this) k in
  (successCount re = successCount r
   ∧ successMillisecondsTotal re = successMillisecondsTotal r
   ∧ successMillisecondsAverage re = successMillisecondsAverage r
   ∧ fetchedRows re = fetchedRows r
   ∧ affectedRows re = affectedRows r
   ∧ changedRows re = changedRows r)
  ∧ (errorCount rs = errorCount r
     ∧ errorMillisecondsTotal rs = errorMillisecondsTotal r
     ∧ errorMillisecondsAverage rs = errorMillisecondsAverage r).
Proof.
  intros k r re rs. subst re rs k.
  rewrite recordBefore_onError, recordBefore_onResult. by split_and!.
Qed.

(** *** Order of completions *)









(** ** The adapter *)

Lemma listenersOf_registered name :
  listenersOf name registered =
  if String.eqb "fields" name then [fnSaveDuration]
  else if String.eqb "error" name then [fnSaveDuration; fnOnEnd; fnOnError]
  else if String.eqb "end" name then [fnOnEnd]
  else [].
Proof.
  unfold listenersOf, registered. cbn [List.filter List.map fst snd].
  destruct (String.eqb_spec "fields" name) as [<-|_]; [reflexivity|].
  destruct (String.eqb_spec "error" name) as [<-|_]; [reflexivity|].
  destruct (String.eqb_spec "end" name) as [<-|_]; reflexivity.
Qed.

Lemma listenersOf_leftover name :
  listenersOf name [("error", fnSaveDuration)] =
  if String.eqb "error" name then [fnSaveDuration] else [].
Proof.
  unfold listenersOf. cbn [List.filter List.map fst snd].
  destruct (String.eqb "error" name); reflexivity.
Qed.

Lemma saveDuration_mk this sql results ls start dur err handled clock :
  ∃ dur' clock',
    saveDuration (mkInstance this sql results ls start dur err handled clock)
    = mkInstance this sql results ls start dur' err handled clock'
    ∧ (dur ≠ 0 → dur' = dur).
Proof.
  unfold saveDuration. cbn [nDurationMilliseconds].
  destruct (Z.eqb_spec dur 0) as [Hz|Hnz].
  - eexists _, _. split; [reflexivity|]. by intros [].
  - by eexists _, _.
Qed.

Lemma onErrorEvent_mk arg this sql results ls start dur err handled clock :
  ∃ dur' clock',
    onErrorEvent arg (mkInstance this sql results ls start dur err handled clock)
    = mkInstance this sql results ls start dur' arg handled clock'
    ∧ (dur ≠ 0 → dur' = dur).
Proof.
  unfold onErrorEvent.
  destruct (saveDuration_mk this sql results ls start dur err handled clock)
    as (dur' & clock' & -> & Hdur).
  by eexists _, _.
Qed.

Lemma onEndEvent_unhandled this sql results start dur clock :
  ∃ dur' clock',
    onEndEvent (mkInstance this sql results registered start dur null false clock)
    = mkInstance
        (let '(f, a, c) := rowCounts results in onResult sql dur' f a c this)
        sql results [("error", fnSaveDuration)] start dur' null true clock'
    ∧ (dur ≠ 0 → dur' = dur).
Proof.
  unfold onEndEvent.
  cbn [bHandled error ToBoolean engine sequence_sql sequence_results
       sequence_listeners nStartUnixTimeMilliseconds nDurationMilliseconds clockReads].
  change (removeListener "end" fnOnEnd
            (removeListener "error" fnOnEnd
               (removeListener "error" fnOnError
                  (removeListener "fields" fnSaveDuration registered))))
    with [("error", fnSaveDuration)].
  destruct (rowCounts results) as [[f a] c].
  destruct (saveDuration_mk this sql results [("error", fnSaveDuration)]
              start dur null true clock) as (dur' & clock' & -> & Hdur).
  by eexists _, _.
Qed.

(** One emission on an instance whose registrations and closure agree. *)
Lemma emit_wired name arg i :
  wired i →
  let i' := emit name arg i in
  wired i'
  ∧ sequence_sql i' = sequence_sql i
  ∧ sequence_results i' = sequence_results i
  ∧ nStartUnixTimeMilliseconds i' = nStartUnixTimeMilliseconds i
  ∧ (nDurationMilliseconds i ≠ 0 → nDurationMilliseconds i' = nDurationMilliseconds i)
  ∧ (bHandled i = true → bHandled i' = true ∧ engine i' = engine i)
  ∧ (bHandled i = false → name ≠ "end" → name ≠ "error" →
     bHandled i' = false ∧ engine i' = engine i)
  ∧ (bHandled i = false → name = "end" ∨ name = "error" →
     bHandled i' = true
     ∧ ∃ d, (nDurationMilliseconds i ≠ 0 → d = nDurationMilliseconds i)
         ∧ engine i' = let '(f, a, c) := rowCounts (sequence_results i) in
                       onResult (sequence_sql i) d f a c (engine i)).
Proof.
  destruct i as [this sql results ls start dur err handled clock].
  unfold wired, emit. cbn [bHandled sequence_listeners error].
  destruct handled.
  - intros ->. rewrite listenersOf_leftover.
    destruct (String.eqb "error" name); cbn [fold_left invoke].
    + destruct (saveDuration_mk this sql results [("error", fnSaveDuration)]
                  start dur err true clock) as (d1 & c1 & -> & H1).
      split_and!; try reflexivity; try assumption; by intros.
    + split_and!; try reflexivity; by intros.
  - intros [-> ->]. rewrite listenersOf_registered.
    destruct (String.eqb_spec "fields" name) as [<-|Hfields]; cbn [fold_left invoke].
    { destruct (saveDuration_mk this sql results registered start dur null false clock)
        as (d1 & c1 & -> & H1).
      split_and!; try reflexivity; try assumption; try (by intros).
      intros _ [?|?]; discriminate. }
    destruct (String.eqb_spec "error" name) as [<-|Herror]; cbn [fold_left invoke].
    { destruct (saveDuration_mk this sql results registered start dur null false clock)
        as (d1 & c1 & -> & H1).
      destruct (onEndEvent_unhandled this sql results start d1 c1)
        as (d2 & c2 & -> & H2).
      destruct (onErrorEvent_mk arg
                  (let '(f, a, c) := rowCounts results in onResult sql d2 f a c this)
                  sql results [("error", fnSaveDuration)] start d2 null true c2)
        as (d3 & c3 & -> & H3).
      assert (H12 : dur ≠ 0 → d2 = dur).
      { intros Hdur. rewrite <- (H1 Hdur). apply H2. by rewrite (H1 Hdur). }
      split_and!; try reflexivity; try (by intros).
      - cbn. intros Hdur. rewrite <- (H12 Hdur). apply H3. by rewrite (H12 Hdur).
      - intros _ _. split; [reflexivity|]. by exists d2. }
    destruct (String.eqb_spec "end" name) as [<-|Hend]; cbn [fold_left invoke].
    { destruct (onEndEvent_unhandled this sql results start dur clock)
        as (d2 & c2 & -> & H2).
      split_and!; try reflexivity; try assumption; try (by intros).
      intros _ _. split; [reflexivity|]. by exists d2. }
    split_and!; try reflexivity; try (by intros).
    intros _ [->| ->]; congruence.
Qed.

Lemma step_wired st i :
  wired i →
  wired (step i st)
  ∧ sequence_sql (step i st) = sequence_sql i
  ∧ nStartUnixTimeMilliseconds (step i st) = nStartUnixTimeMilliseconds i
  ∧ (nDurationMilliseconds i ≠ 0 →
     nDurationMilliseconds (step i st) = nDurationMilliseconds i).
Proof.
  intros Hw. destruct st as [name arg|r|h].
  - destruct (emit_wired name arg i Hw) as (? & ? & _ & ? & ? & _). by split_and!.
  - by split_and!.
  - by split_and!.
Qed.

Lemma drive_snoc steps st i : drive (steps ++ [st]) i = step (drive steps i) st.
Proof. unfold drive. by rewrite fold_left_app. Qed.

Lemma drive_wired steps i :
  wired i →
  wired (drive steps i)
  ∧ sequence_sql (drive steps i) = sequence_sql i
  ∧ nStartUnixTimeMilliseconds (drive steps i) = nStartUnixTimeMilliseconds i
  ∧ (nDurationMilliseconds i ≠ 0 →
     nDurationMilliseconds (drive steps i) = nDurationMilliseconds i).
Proof.
  intros Hw. induction steps as [|st steps IH] using rev_ind.
  - by split_and!.
  - destruct IH as (IHw & IHsql & IHstart & IHdur). rewrite drive_snoc.
    destruct (step_wired st (drive steps i) IHw) as (? & Hsql & Hstart & Hdur).
    split_and!; [done|congruence|congruence|].
    intros Hnz. rewrite Hdur; rewrite IHdur; done.
Qed.

Lemma enqueued_wired sql results this clock : wired (enqueued sql results this clock).
Proof. by split. Qed.

Lemma drive_records_once sql results this clock steps :
  (∀ h, Others h ∉ steps) →
  let i := drive steps (enqueued sql results this clock) in
  (bHandled i = true ↔ Exists isTerminal steps)
  ∧ (bHandled i = false → engine i = onQuery this)
  ∧ (bHandled i = true → ∃ d f a c, engine i = onResult sql d f a c (onQuery this)).
Proof.
  intros Hno. cbv zeta.
  induction steps as [|st steps IH] using rev_ind.
  - split_and!.
    + split; [discriminate|]. by intros ?%Exists_nil.
    + reflexivity.
    + discriminate.
  - assert (Hno' : ∀ h, Others h ∉ steps).
    { intros h Hin. apply (Hno h). apply elem_of_app. by left. }
    destruct (IH Hno') as (IHt & IHf & IHs). clear IH.
    destruct (drive_wired steps (enqueued sql results this clock)
                (enqueued_wired sql results this clock)) as (Hw & Hsql & _).
    rewrite drive_snoc. revert IHt IHf IHs Hw Hsql.
    generalize (drive steps (enqueued sql results this clock)).
    intros i IHt IHf IHs Hw Hsql.
    cbn [sequence_sql enqueued] in Hsql.
    rewrite Exists_app, Exists_cons, Exists_nil.
    destruct st as [name arg|r|h].
    + destruct (emit_wired name arg i Hw) as (_ & _ & _ & _ & _ & Hh & Hother & Hterm).
      cbn [step isTerminal].
      destruct (bHandled i) eqn:Ehandled.
      * destruct (Hh eq_refl) as [-> ->]. split_and!.
        -- split; [|done]. intros _. left. by apply IHt.
        -- discriminate.
        -- intros _. by apply IHs.
      * assert (Hcases : (name = "end" ∨ name = "error")
                         ∨ (name ≠ "end" ∧ name ≠ "error")).
        { destruct (decide (name = "end")); [by auto|].
          destruct (decide (name = "error")); by auto. }
        destruct Hcases as [Hname|[Hend Herror]].
        -- destruct (Hterm eq_refl Hname) as [-> (d & _ & ->)].
           rewrite Hsql, (IHf eq_refl).
           destruct (rowCounts (sequence_results i)) as [[f a] c].
           split_and!.
           ++ split; [|done]. intros _. right. by left.
           ++ discriminate.
           ++ intros _. by exists d, f, a, c.
        -- destruct (Hother eq_refl Hend Herror) as [-> ->]. split_and!.
           ++ split; [discriminate|].
              intros [Hex|[[?|?]|[]]]; [|done..]. by apply IHt in Hex.
           ++ intros _. by apply IHf.
           ++ discriminate.
    + cbn [step isTerminal bHandled engine]. split_and!; [|done..].
      rewrite IHt. split; [by left|]. by intros [?|[[]|[]]].
    + destruct (Hno h). apply elem_of_app. right. by apply list_elem_of_singleton.
Qed.

(** X12: the life of one instrumented Query sequence, with no other
    caller of the engine in between.  Whatever events the driver emits
    and in whatever order, the engine has received [onQuery] and then
    either nothing more, when no ["end"] or ["error"] event was emitted
    yet, or exactly one [onResult] for the text of the sequence: an
    ["error"] event is recorded through [onResult], because [fnOnEnd] is
    registered on ["error"] before [fnOnError], and later events record
    nothing. *)
Theorem adapter_records_one_success sql results this clock steps :
  (∀ h, Others h ∉ steps) →
  let i := drive steps (enqueued sql results this clock) in
  (bHandled i = true ↔ Exists isTerminal steps)
  ∧ (bHandled i = false → engine i = onQuery this)
  ∧ (bHandled i = true → ∃ d f a c, engine i = onResult sql d f a c (onQuery this)).
Proof. apply drive_records_once. Qed.

(** X13: for a sequence instrumented by the handler, in any state that
    the driver's events, changes of the results and calls by other users
    of the engine can lead to, an emitted event never changes the
    [errorCount] of any key, and once the completion has been recorded an
    emitted event leaves the engine unchanged. *)
Theorem adapter_never_counts_an_error sql results this clock steps name arg k :
  let i := drive steps (enqueued sql results this clock) in
  errorCount (recordBefore (engine (emit name arg i)) k)
  = errorCount (recordBefore (engine i) k)
  ∧ (bHandled i = true → engine (emit name arg i) = engine i).
Proof.
  cbv zeta.
  destruct (drive_wired steps (enqueued sql results this clock)
              (enqueued_wired sql results this clock)) as (Hw & _).
  revert Hw. generalize (drive steps (enqueued sql results this clock)). intros i Hw.
  destruct (emit_wired name arg i Hw) as (_ & _ & _ & _ & _ & Hh & Hother & Hterm).
  split; [|intros Ht; by destruct (Hh Ht)].
  destruct (bHandled i) eqn:Ehandled.
  - by destruct (Hh eq_refl) as [_ ->].
  - destruct (decide (name = "end")) as [Hend|Hend];
      [|destruct (decide (name = "error")) as [Herror|Herror]].
    3: by destruct (Hother eq_refl Hend Herror) as [_ ->].
    all: destruct (Hterm eq_refl) as [_ (d & _ & ->)]; [by auto|].
    all: destruct (rowCounts (sequence_results i)) as [[f a] c].
    all: destruct (counters_after_call (OnResult (sequence_sql i) d f a c) k (engine i))
           as [_ He]; [done|].
    all: cbn [call isErrorFor] in He; lia.
Qed.

(** X14: when the first event after the enqueue is ["fields"] and the
    clock has advanced by then, the duration passed to the engine at the
    later ["end"] or ["error"] event is the time from the enqueue to that
    ["fields"] event, whatever happens in between and however late the
    completion comes. *)
Theorem adapter_duration_is_time_to_first_fields
    sql results this clock arg steps name arg' :
  getTime (S clock) ≠ getTime clock →
  Forall (λ st, ¬ isTerminal st) steps →
  name = "end" ∨ name = "error" →
  let i := drive steps (emit "fields" arg (enqueued sql results this clock)) in
  engine (emit name arg' i)
  = let '(f, a, c) := rowCounts (sequence_results i) in
    onResult sql (getTime (S clock) - getTime clock) f a c (engine i).
Proof.
  intros Hclock Hsteps Hname. cbv zeta.
  set (i1 := emit "fields" arg (enqueued sql results this clock)).
  assert (H1 : wired i1 ∧ bHandled i1 = false ∧ sequence_sql i1 = sql
               ∧ nDurationMilliseconds i1 = getTime (S clock) - getTime clock).
  { subst i1. unfold emit, enqueued. cbn [sequence_listeners].
    rewrite listenersOf_registered. cbn. by split_and!. }
  clearbody i1. destruct H1 as (Hw1 & Hh1 & Hsql1 & Hdur1).
  assert (H : wired (drive steps i1) ∧ bHandled (drive steps i1) = false
              ∧ sequence_sql (drive steps i1) = sql
              ∧ nDurationMilliseconds (drive steps i1) = getTime (S clock) - getTime clock).
  { revert Hsteps. induction steps as [|st steps IH] using rev_ind; intros Hsteps.
    - by split_and!.
    - apply Forall_app in Hsteps as [Hsteps Hst].
      apply Forall_cons in Hst as [Hst _].
      destruct (IH Hsteps) as (IHw & IHh & IHsql & IHdur). rewrite drive_snoc.
      destruct (step_wired st (drive steps i1) IHw) as (Hw & Hsql & _ & Hdur).
      split_and!; [done| |congruence|rewrite Hdur; [done|rewrite IHdur; lia]].
      destruct st as [name' arg''|r|h]; [|done..].
      destruct (emit_wired name' arg'' (drive steps i1) IHw)
        as (_ & _ & _ & _ & _ & _ & Hother & _).
      cbn [isTerminal] in Hst. apply Hother; [done|intros ->; auto..]. }
  revert H. generalize (drive steps i1). intros i (Hw & Hh & Hsql & Hdur).
  destruct (emit_wired name arg' i Hw) as (_ & _ & _ & _ & _ & _ & _ & Hterm).
  destruct (Hterm Hh Hname) as [_ (d & Hd & ->)].
  rewrite Hd by (rewrite Hdur; lia). by rewrite Hsql, Hdur.
Qed.

(** X19: the registrations on an instrumented sequence, in any state
    that events, changes of the results and other users of the engine
    can lead to: all five until the completion is recorded, and from then
    on exactly one, [fnSaveDuration] on ["error"], which [fnOnEnd] does
    not remove. *)
Theorem adapter_leaves_one_listener sql results this clock steps :
  sequence_listeners (drive steps (enqueued sql results this clock))
  = if bHandled (drive steps (enqueued sql results this clock))
    then [("error", fnSaveDuration)]
    else registered.
Proof.
  destruct (drive_wired steps (enqueued sql results this clock)
              (enqueued_wired sql results this clock)) as (Hw & _).
  unfold wired in Hw.
  destruct (bHandled (drive steps (enqueued sql results this clock)));
    [exact Hw|exact (proj1 Hw)].
Qed.

(** X20: an instrumented sequence, with no other caller of the engine
    in between, holds the gauge one above its value before the enqueue
    until the completion is recorded, and puts it back to that value
    then. *)
Theorem adapter_restores_gauge sql results this clock steps :
  (∀ h, Others h ∉ steps) →
  0 ≤ runningQueriesCount this →
  runningQueriesCount (engine (drive steps (enqueued sql results this clock)))
  = runningQueriesCount this
    + (if bHandled (drive steps (enqueued sql results this clock)) then 0 else 1).
Proof.
  intros Hno Hg.
  destruct (drive_records_once sql results this clock steps Hno) as (_ & Hf & Ht).
  cbv zeta in Hf, Ht.
  destruct (bHandled (drive steps (enqueued sql results this clock))).
  - destruct (Ht eq_refl) as (d & f & a & c & ->).
    rewrite (proj1 (onResult_frame sql d f a c (onQuery this))).
    unfold runningQueriesCount, onQuery in *. simpl. lia.
  - rewrite (Hf eq_refl). unfold runningQueriesCount, onQuery. simpl. lia.
Qed.

(** *** Several attachments *)

Lemma resume_wired this clock i : wired i → wired (resume this clock i).
Proof. done. Qed.

Lemma enqueuedBy_spec sql results n : ∀ this clock,
  let '(closures, this1, _) := enqueuedBy n sql results this clock in
  length closures = n
  ∧ Forall (λ i, wired i ∧ bHandled i = false ∧ sequence_sql i = sql) closures
  ∧ metrics this1 = metrics this
  ∧ runningQueriesCount this1 = runningQueriesCount this + Z.of_nat n.
Proof.
  induction n as [|n IH]; intros this clock.
  - cbn [enqueuedBy]. split_and!; [done|apply Forall_nil_2|done|cbn; lia].
  - cbn [enqueuedBy]. cbv zeta.
    specialize (IH (engine (enqueued sql results this clock))
                   (clockReads (enqueued sql results this clock))).
    destruct (enqueuedBy n sql results _ _) as [[closures this1] clock1].
    destruct IH as (Hlen & Hall & Hm & Hg). split_and!.
    + cbn [length]. by rewrite Hlen.
    + apply Forall_cons. split; [|done]. split_and!; [apply enqueued_wired|done..].
    + by rewrite Hm.
    + rewrite Hg. unfold runningQueriesCount, enqueued, onQuery. simpl. lia.
Qed.

Lemma emitAll_spec sql name arg k closures :
  name = "end" ∨ name = "error" →
  Forall (λ i, wired i ∧ bHandled i = false ∧ sequence_sql i = sql) closures →
  ∀ this clock,
  let '(_, this2, _) := emitAll name arg closures this clock in
  successCount (recordBefore this2 k)
  = successCount (recordBefore this k)
    + (if bool_decide (unparametrize_sql_query sql = k)
       then Z.of_nat (length closures) else 0)
  ∧ errorCount (recordBefore this2 k) = errorCount (recordBefore this k)
  ∧ (Z.of_nat (length closures) ≤ runningQueriesCount this →
     runningQueriesCount this2 = runningQueriesCount this - Z.of_nat (length closures)).
Proof.
  intros Hname Hall. induction Hall as [|i rest (Hw & Hh & Hsql) Hrest IH]; intros this clock.
  - cbn [emitAll length]. case_bool_decide; split_and!; lia.
  - cbn [emitAll]. cbv zeta.
    destruct (emit_wired name arg (resume this clock i) (resume_wired this clock i Hw))
      as (_ & _ & _ & _ & _ & _ & _ & Hterm).
    cbv zeta in Hterm. destruct (Hterm Hh Hname) as [_ (d & _ & He)].
    cbn [resume sequence_results sequence_sql engine] in He. rewrite Hsql in He.
    destruct (rowCounts (sequence_results i)) as [[f a] c].
    specialize (IH (engine (emit name arg (resume this clock i)))
                   (clockReads (emit name arg (resume this clock i)))).
    destruct (emitAll name arg rest _ _) as [[rest' this2] clock2].
    destruct IH as (Hs & Herr & Hg). rewrite He in Hs, Herr, Hg.
    destruct (counters_after_call (OnResult sql d f a c) k this) as [Hs1 He1]; [done|].
    cbn [call isSuccessFor isErrorFor] in Hs1, He1.
    rewrite (proj1 (onResult_frame sql d f a c this)) in Hg.
    rewrite Hs, Herr, Hs1, He1. cbn [length].
    split_and!; [case_bool_decide; lia|lia|].
    intros Hle. rewrite Hg; lia.
Qed.

(** X21: nothing keeps [onMySQLPromiseConnection] from instrumenting a
    connection again.  On a connection passed to it [n] times, with one
    engine, the enqueue of a Query sequence raises the gauge by [n], and
    the ["end"] or ["error"] event of the sequence adds [n] to the
    [successCount] of its key, adds nothing to the [errorCount], and
    brings the gauge back. *)
Theorem adapter_attached_n_times_counts_n_times n sql results this clock name arg :
  name = "end" ∨ name = "error" →
  0 ≤ runningQueriesCount this →
  let '(closures, this1, clock1) := enqueuedBy n sql results this clock in
  let '(_, this2, _) := emitAll name arg closures this1 clock1 in
  runningQueriesCount this1 = runningQueriesCount this + Z.of_nat n
  ∧ successCount (recordBefore this2 (unparametrize_sql_query sql))
    = successCount (recordBefore this (unparametrize_sql_query sql)) + Z.of_nat n
  ∧ errorCount (recordBefore this2 (unparametrize_sql_query sql))
    = errorCount (recordBefore this (unparametrize_sql_query sql))
  ∧ runningQueriesCount this2 = runningQueriesCount this.
Proof.
  intros Hname Hg.
  pose proof (enqueuedBy_spec sql results n this clock) as H1.
  destruct (enqueuedBy n sql results this clock) as [[closures this1] clock1].
  destruct H1 as (Hlen & Hall & Hm & Hg1).
  pose proof (emitAll_spec sql name arg (unparametrize_sql_query sql) closures
                Hname Hall this1 clock1) as H2.
  destruct (emitAll name arg closures this1 clock1) as [[closures' this2] clock2].
  destruct H2 as (Hs & He & Hg2).
  assert (Hr : recordBefore this1 (unparametrize_sql_query sql)
               = recordBefore this (unparametrize_sql_query sql)).
  { unfold recordBefore. fold (metrics this1). fold (metrics this). by rewrite Hm. }
  rewrite Hs, He, Hr, Hlen. rewrite bool_decide_eq_true_2 by done.
  split_and!; [done..|]. rewrite Hg2; lia.
Qed.

(** ** Averages follow the totals *)

Lemma averaged_call h this :
  counted this → averaged this → averaged (call h this).
Proof.
  intros Hc Ha k r. destruct h as [n b| |q d f a c|q d e|]; simpl.
  - rewrite (proj1 (setLatency_frame n b this)). apply Ha.
  - apply Ha.
  - rewrite onResult_metrics, lookup_insert. case_decide as Hk; [|apply Ha].
    intros [= <-].
    destruct (recordBefore_counters this (unparametrize_sql_query q) Hc) as [Hs He].
    unfold recordBefore in *. fold (metrics this) in *.
    destruct (metrics this !! unparametrize_sql_query q) as [r0|] eqn:E;
      cbn [default recordSuccess successCount successMillisecondsTotal
           successMillisecondsAverage errorCount errorMillisecondsTotal
           errorMillisecondsAverage] in *.
    + split; [|by destruct (Ha _ _ E)].
      unfold averageOf. by rewrite (proj2 (Z.eqb_neq _ 0)) by lia.
    + split; [|done]. unfold averageOf. by rewrite (proj2 (Z.eqb_neq _ 0)) by lia.
  - rewrite onError_metrics, lookup_insert. case_decide as Hk; [|apply Ha].
    intros [= <-].
    destruct (recordBefore_counters this (unparametrize_sql_query q) Hc) as [Hs He].
    unfold recordBefore in *. fold (metrics this) in *.
    destruct (metrics this !! unparametrize_sql_query q) as [r0|] eqn:E;
      cbn [default recordError successCount successMillisecondsTotal
           successMillisecondsAverage errorCount errorMillisecondsTotal
           errorMillisecondsAverage] in *.
    + split; [by destruct (Ha _ _ E)|].
      unfold averageOf. by rewrite (proj2 (Z.eqb_neq _ 0)) by lia.
    + split; [done|]. unfold averageOf. by rewrite (proj2 (Z.eqb_neq _ 0)) by lia.
  - change (metrics (clear this)) with (∅ : gmap string Metrics).
    by rewrite lookup_empty.
Qed.

(** X15: in every state reached from a fresh engine, each average of
    each record is the one computed from the total and the count stored
    beside it -- [parseInt(total / count)], or 0 while the count is 0 --
    so no call leaves an average behind its total or its count. *)
Theorem averages_follow_totals hs k r :
  metrics (run hs new) !! k = Some r →
  successMillisecondsAverage r
  = averageOf (successMillisecondsTotal r) (successCount r)
  ∧ errorMillisecondsAverage r
    = averageOf (errorMillisecondsTotal r) (errorCount r).
Proof.
  revert k r. change (averaged (run hs new)).
  induction hs as [|h hs IH] using rev_ind.
  - intros k r. change (metrics (run [] new)) with (∅ : gmap string Metrics).
    by rewrite lookup_empty.
  - rewrite run_snoc. apply averaged_call; [apply counted_run|done].
Qed.

(** ** The Number path in general

    What [parseInt(total / count)] and [parseInt(rows)] return, from the
    rounding of the quotient to a double, the shortest decimal that reads
    back as that double, its layout as a string and the digits [parseInt]
    reads. *)

Section NumberFacts.

Local Open Scope Z_scope.

Lemma round_nearest_even_spec num den :
  0 < den → 0 <= num →
  - den <= 2 * (round_nearest_even num den * den - num) <= den
  ∧ (num mod den = 0 → round_nearest_even num den * den = num)
  ∧ num / den <= round_nearest_even num den <= num / den + 1.
Proof.
  intros Hden Hnum. unfold round_nearest_even.
  pose proof (Z.div_mod num den ltac:(lia)) as Hdm.
  pose proof (Z.mod_pos_bound num den Hden) as Hr.
  destruct (Z.compare_spec (2 * (num mod den)) den) as [Heq|Hlt|Hgt].
  - destruct (Z.even (num / den)); split_and!; try nia.
  - split_and!; try nia.
  - split_and!; try nia.
Qed.

(** Bounds on a scaled quotient from the binary logarithms of its parts. *)
Lemma scaled_bounds_up P t c a zl zu tl tu :
  0 < P → 0 < a → 0 < c →
  zl <= c < zu → tl <= t < tu →
  P * zu * a = tl → 4 * P * zl * a = tu →
  P * (c * a) <= t ∧ t < 4 * P * (c * a).
Proof.
  intros HP Ha Hc [Hcl Hcu] [Htl Htu] Hlo Hhi.
  assert (HW : 0 < P * a) by nia. set (W := P * a) in *.
  replace (P * (c * a)) with (W * c) by (unfold W; ring).
  replace (4 * P * (c * a)) with (4 * (W * c)) by (unfold W; ring).
  replace (P * zu * a) with (W * zu) in Hlo by (unfold W; ring).
  replace (4 * P * zl * a) with (4 * (W * zl)) in Hhi by (unfold W; ring).
  clearbody W. nia.
Qed.

Lemma scaled_bounds_down P t c a zl zu tl tu :
  0 < P → 0 < a → 0 < c →
  zl <= c < zu → tl <= t < tu →
  tl * a = P * zu → tu * a = 4 * P * zl →
  P * c <= t * a ∧ t * a < 4 * P * c.
Proof.
  intros HP Ha Hc [Hcl Hcu] [Htl Htu] Hlo Hhi. nia.
Qed.

(** The scaled numerator and denominator that [binary64_of_ratio] rounds. *)
Lemma binary64_of_ratio_scaled t c :
  0 < t → 0 < c →
  ∃ num den e,
    0 < den ∧ 0 <= num ∧ 2 ^ 52 * den <= num < 2 ^ 53 * den
    ∧ binary64_of_ratio t c
      = (if round_nearest_even num den =? 2 ^ 53 then (2 ^ 52, e + 1)
         else (round_nearest_even num den, e))
    ∧ ((0 <= e ∧ num * c * 2 ^ e = t * den)
       ∨ (e < 0 ∧ num * c = t * den * 2 ^ (- e))).
Proof.
  intros Ht Hc. unfold binary64_of_ratio.
  pose proof (Z.log2_spec t Ht) as Htb.
  pose proof (Z.log2_spec c Hc) as Hcb.
  pose proof (Z.log2_nonneg t) as Hlt. pose proof (Z.log2_nonneg c) as Hlc.
  set (lp := Z.log2 t) in *. set (lq := Z.log2 c) in *.
  set (e0 := lp - lq - 53).
  assert (H53 : 2 ^ 53 = 2 * 2 ^ 52) by reflexivity.
  assert (H52 : 0 < 2 ^ 52) by reflexivity.
  destruct (Z.leb_spec 0 e0) as [He0|He0].
  - assert (Hpe : 0 < 2 ^ e0) by (apply Z.pow_pos_nonneg; lia).
    destruct (scaled_bounds_up (2 ^ 52) t c (2 ^ e0) (2 ^ lq) (2 ^ Z.succ lq)
                (2 ^ lp) (2 ^ Z.succ lp)) as [Hlo Hhi]; try done.
    { rewrite <- !Z.pow_add_r by lia. f_equal. lia. }
    { change 4 with (2 ^ 2). rewrite <- !Z.pow_add_r by lia. f_equal. lia. }
    destruct (Z.ltb_spec t (c * 2 ^ e0 * 2 ^ 53)) as [Hs|Hs].
    + exists t, (c * 2 ^ e0), e0.
      split_and!; [nia|lia|lia|lia|reflexivity|]. left. split; [lia|ring].
    + exists t, (2 * (c * 2 ^ e0)), (e0 + 1).
      split_and!; [nia|lia|lia|lia|reflexivity|]. left. split; [lia|].
      rewrite Z.pow_add_r by lia. ring.
  - assert (Hpe : 0 < 2 ^ (- e0)) by (apply Z.pow_pos_nonneg; lia).
    destruct (scaled_bounds_down (2 ^ 52) t c (2 ^ (- e0)) (2 ^ lq) (2 ^ Z.succ lq)
                (2 ^ lp) (2 ^ Z.succ lp)) as [Hlo Hhi]; try done.
    { rewrite <- !Z.pow_add_r by lia. f_equal. lia. }
    { change 4 with (2 ^ 2). rewrite <- !Z.pow_add_r by lia. f_equal. lia. }
    destruct (Z.ltb_spec (t * 2 ^ (- e0)) (c * 2 ^ 53)) as [Hs|Hs].
    + exists (t * 2 ^ (- e0)), c, e0.
      split_and!; [lia|nia|lia|lia|reflexivity|]. right. split; [lia|ring].
    + exists (t * 2 ^ (- e0)), (2 * c), (e0 + 1).
      split_and!; [lia|nia|lia|lia|reflexivity|].
      destruct (decide (e0 = -1)) as [->|Hne].
      * left. split; [lia|]. change (2 ^ (- -1)) with 2. change (2 ^ (-1 + 1)) with 1. ring.
      * right. split; [lia|].
        replace (- e0) with (1 + - (e0 + 1)) by lia.
        rewrite Z.pow_add_r by lia. change (2 ^ 1) with 2. ring.
Qed.


Local Open Scope Q_scope.

Lemma Qpow_pos b e : (0 < b)%Z → 0 < Qpow b e.
Proof.
  intros Hb. unfold Qpow. apply Qpower_0_lt.
  change 0 with (inject_Z 0). by rewrite <- Zlt_Qlt.
Qed.

Lemma Qpow_nonneg_exp b e : (0 <= e)%Z → Qpow b e == inject_Z (b ^ e).
Proof. intros He. unfold Qpow. by rewrite Zpower_Qpower. Qed.

Lemma Qpow_neg_exp b e : (e < 0)%Z → Qpow b e == / inject_Z (b ^ (- e)).
Proof.
  intros He. unfold Qpow.
  replace e with (- - e)%Z at 1 by lia.
  rewrite Qpower_opp. by rewrite Zpower_Qpower by lia.
Qed.

Lemma Qpow_succ b e : (0 < b)%Z → Qpow b (e + 1) == inject_Z b * Qpow b e.
Proof.
  intros Hb. unfold Qpow. rewrite Qpower_plus.
  - simpl. ring.
  - intros H. apply (Qlt_irrefl 0). rewrite <- H at 2.
    change 0 with (inject_Z 0). by rewrite <- Zlt_Qlt.
Qed.

Lemma Qpow_pred b e : (0 < b)%Z → Qpow b e == inject_Z b * Qpow b (e - 1).
Proof.
  intros Hb. replace e with (e - 1 + 1)%Z at 1 by lia. by apply Qpow_succ.
Qed.

(** The Number that [binary64_of_ratio] returns is within half a unit in
    the last place of the quotient, and is the quotient when that is an
    integer and the unit is below 1. *)
Lemma binary64_of_ratio_Q t c :
  (0 < t)%Z → (0 < c)%Z →
  let '(m, e) := binary64_of_ratio t c in
  (2 ^ 52 <= m < 2 ^ 53)%Z
  ∧ inject_Z m * Qpow 2 e - inject_Z t / inject_Z c <= Qpow 2 e * (1 # 2)
  ∧ inject_Z t / inject_Z c - inject_Z m * Qpow 2 e <= Qpow 2 e * (1 # 2)
  ∧ ((e < 0)%Z → (c | t)%Z → inject_Z m * Qpow 2 e == inject_Z t / inject_Z c).
Proof.
  intros Ht Hc.
  destruct (binary64_of_ratio_scaled t c Ht Hc)
    as (num & den & e & Hden & Hnum & [Hlo Hhi] & -> & Hrel).
  destruct (round_nearest_even_spec num den Hden Hnum) as ([Hr1 Hr2] & Hexact & Hm1 & Hm2).
  set (m := round_nearest_even num den) in *.
  assert (Hfloor : (2 ^ 52 <= num / den <= 2 ^ 53 - 1)%Z).
  { split.
    - apply Z.div_le_lower_bound; lia.
    - assert (num / den < 2 ^ 53)%Z; [|lia]. apply Z.div_lt_upper_bound; lia. }
  assert (HE : 0 < Qpow 2 e) by by apply Qpow_pos.
  assert (HD : 0 < inject_Z den).
  { change 0 with (inject_Z 0). by rewrite <- Zlt_Qlt. }
  assert (HC : 0 < inject_Z c).
  { change 0 with (inject_Z 0). by rewrite <- Zlt_Qlt. }
  (* the quotient in terms of the scaled numerator *)
  assert (Hq : inject_Z t / inject_Z c == inject_Z num / inject_Z den * Qpow 2 e).
  { assert (Hcross : inject_Z t / inject_Z c
                     == (inject_Z t * inject_Z den) / (inject_Z c * inject_Z den)).
    { field. split; lra. }
    rewrite Hcross.
    destruct Hrel as [[He Hrel]|[He Hrel]].
    - rewrite (Qpow_nonneg_exp 2 e He).
      rewrite <- inject_Z_mult, <- Hrel, !inject_Z_mult. field. split; lra.
    - rewrite (Qpow_neg_exp 2 e He).
      assert (HP : 0 < inject_Z (2 ^ (- e))).
      { change 0 with (inject_Z 0). rewrite <- Zlt_Qlt. apply Z.pow_pos_nonneg; lia. }
      assert (Hnc : inject_Z num == inject_Z t * inject_Z den * inject_Z (2 ^ (- e)) / inject_Z c).
      { rewrite <- !inject_Z_mult, <- Hrel, inject_Z_mult. field. lra. }
      rewrite Hnc. field. split_and!; lra. }
  (* the rounding error, scaled *)
  assert (Herr1 : inject_Z m * inject_Z den - inject_Z num <= inject_Z den * (1 # 2)).
  { assert (H : (2 * (m * den) <= den + 2 * num)%Z) by lia.
    rewrite Zle_Qle, inject_Z_plus, !inject_Z_mult in H.
    change (inject_Z 2) with 2 in H. lra. }
  assert (Herr2 : inject_Z num - inject_Z m * inject_Z den <= inject_Z den * (1 # 2)).
  { assert (H : (2 * num <= den + 2 * (m * den))%Z) by lia.
    rewrite Zle_Qle, inject_Z_plus, !inject_Z_mult in H.
    change (inject_Z 2) with 2 in H. lra. }
  assert (Hx : inject_Z m * Qpow 2 e - inject_Z t / inject_Z c
               == (inject_Z m * inject_Z den - inject_Z num) * (Qpow 2 e / inject_Z den)).
  { rewrite Hq. field. lra. }
  assert (HEd : 0 < Qpow 2 e / inject_Z den).
  { apply Qlt_shift_div_l; lra. }
  assert (Hbound : (Qpow 2 e / inject_Z den) * (inject_Z den * (1 # 2)) == Qpow 2 e * (1 # 2)).
  { field. lra. }
  assert (Hup : inject_Z m * Qpow 2 e - inject_Z t / inject_Z c <= Qpow 2 e * (1 # 2)).
  { rewrite Hx, <- Hbound. rewrite (Qmult_comm (Qpow 2 e / inject_Z den)).
    apply Qmult_le_compat_r; lra. }
  assert (Hdown : inject_Z t / inject_Z c - inject_Z m * Qpow 2 e <= Qpow 2 e * (1 # 2)).
  { assert (H : inject_Z t / inject_Z c - inject_Z m * Qpow 2 e
                == (inject_Z num - inject_Z m * inject_Z den) * (Qpow 2 e / inject_Z den)).
    { rewrite Hq. field. lra. }
    rewrite H, <- Hbound. rewrite (Qmult_comm (Qpow 2 e / inject_Z den)).
    apply Qmult_le_compat_r; lra. }
  assert (Hex : (e < 0)%Z → (c | t)%Z → inject_Z m * Qpow 2 e == inject_Z t / inject_Z c).
  { intros He [k Hk]. destruct Hrel as [[He' _]|[_ Hrel]]; [lia|].
    assert (Hnd : (num = k * 2 ^ (- e) * den)%Z).
    { subst t. apply (Z.mul_reg_r _ _ c); [lia|]. rewrite Hrel. ring. }
    assert (Hmod : (num mod den = 0)%Z).
    { rewrite Hnd. apply Z.mod_mul. lia. }
    specialize (Hexact Hmod). apply (f_equal inject_Z) in Hexact.
    rewrite inject_Z_mult in Hexact.
    rewrite Hq, <- Hexact. field. lra. }
  destruct (Z.eqb_spec m (2 ^ 53)) as [Hm|Hm].
  - rewrite Hm in *. rewrite (Qpow_succ 2 e) by done.
    change (inject_Z (2 ^ 53)) with (2 * inject_Z (2 ^ 52)) in *.
    change (inject_Z 2) with 2.
    split_and!; [done|done|lra|lra|].
    intros He Hdiv. rewrite <- Hex; [ring|lia|done].
  - split_and!; [lia|lia|done|done|done].
Qed.


Lemma scale_up_spec fuel x : ∀ n,
  let n' := scale_up fuel x n in
  (n <= n' <= n + Z.of_nat fuel)%Z
  ∧ ((n < n')%Z → Qpow 10 (n' - 1) <= x)
  ∧ ((n' < n + Z.of_nat fuel)%Z → x < Qpow 10 n').
Proof.
  induction fuel as [|fuel IH]; intros n; cbn [scale_up].
  - split_and!; [lia|lia|lia|lia].
  - destruct (Qle_bool (Qpow 10 n) x) eqn:E.
    + destruct (IH (n + 1)%Z) as ([H1 H2] & H3 & H4). split_and!; [lia|lia| |].
      * intros _. destruct (decide (n + 1 < scale_up fuel x (n + 1))%Z) as [Hlt|Hge].
        -- by apply H3.
        -- replace (scale_up fuel x (n + 1) - 1)%Z with n by lia.
           by apply Qle_bool_iff.
      * intros Hlt. apply H4. lia.
    + split_and!; [lia|lia|lia|]. intros _.
      apply Qnot_le_lt. intros H%Qle_bool_iff. congruence.
Qed.

Lemma scale_down_spec fuel x : ∀ n,
  let n' := scale_down fuel x n in
  (n - Z.of_nat fuel <= n' <= n)%Z
  ∧ (x < Qpow 10 n → x < Qpow 10 n')
  ∧ ((n - Z.of_nat fuel < n')%Z → Qpow 10 (n' - 1) <= x).
Proof.
  induction fuel as [|fuel IH]; intros n; cbn [scale_down].
  - split_and!; [lia|lia|done|lia].
  - destruct (Qle_bool (Qpow 10 (n - 1)) x) eqn:E.
    + split_and!; [lia|lia|done|]. intros _. by apply Qle_bool_iff.
    + destruct (IH (n - 1)%Z) as ([H1 H2] & H3 & H4). split_and!; [lia|lia| |].
      * intros _. apply H3. apply Qnot_le_lt. intros H%Qle_bool_iff. congruence.
      * intros Hlt. apply H4. lia.
Qed.

Lemma Qpow_two_le_ten k : (0 <= k)%Z → Qpow 2 k <= Qpow 10 k.
Proof.
  intros Hk. rewrite !Qpow_nonneg_exp by done. rewrite <- Zle_Qle.
  apply Z.pow_le_mono_l. lia.
Qed.

Lemma Qpow_le_mono b j k : (1 <= b)%Z → (j <= k)%Z → Qpow b j <= Qpow b k.
Proof.
  intros Hb Hjk. unfold Qpow. apply Qpower_le_compat_l; [done|].
  change 1 with (inject_Z 1). by rewrite <- Zle_Qle.
Qed.

Lemma Qpow_neg b k : (0 < b)%Z → Qpow b (- k) == / Qpow b k.
Proof. intros Hb. unfold Qpow. apply Qpower_opp. Qed.

(** [decimal_exponent] brackets a positive number between two
    consecutive powers of ten. *)
Lemma decimal_exponent_spec x :
  0 < x →
  Qpow 10 (decimal_exponent x - 1) <= x ∧ x < Qpow 10 (decimal_exponent x).
Proof.
  intros Hx. unfold decimal_exponent.
  destruct x as [a b]. cbn [Qnum Qden].
  assert (Ha : (0 < a)%Z).
  { unfold Qlt in Hx. simpl in Hx. lia. }
  pose proof (Z.log2_spec a Ha) as [Hal Hau].
  pose proof (Z.log2_spec (Zpos b) ltac:(lia)) as [Hbl Hbu].
  pose proof (Z.log2_nonneg a) as Hla. pose proof (Z.log2_nonneg (Zpos b)) as Hlb.
  set (la := Z.log2 a) in *. set (lb := Z.log2 (Zpos b)) in *.
  set (fuel := Z.to_nat (la + lb + 2)).
  assert (Hfuel : Z.of_nat fuel = (la + lb + 2)%Z) by (unfold fuel; lia).
  (* the number is below 10^(la+1) and above 10^(-(lb+1)) *)
  assert (Hupper : a # b < Qpow 10 (la + 1)).
  { apply Qlt_le_trans with (Qpow 2 (la + 1)); [|apply Qpow_two_le_ten; lia].
    rewrite Qpow_nonneg_exp by lia.
    apply Qle_lt_trans with (inject_Z a).
    - unfold Qle. simpl. nia.
    - rewrite <- Zlt_Qlt. by rewrite <- Z.add_1_r in Hau. }
  assert (Hlower : Qpow 10 (- (lb + 1)) < a # b).
  { rewrite Qpow_neg by done.
    apply Qle_lt_trans with (/ Qpow 2 (lb + 1)).
    - apply Qle_shift_inv_l; [by apply Qpow_pos|].
      rewrite Qmult_comm. apply Qle_shift_div_r; [by apply Qpow_pos|].
      rewrite Qmult_1_l. apply Qpow_two_le_ten. lia.
    - rewrite Qpow_nonneg_exp by lia.
      apply Qlt_le_trans with (1 # b).
      + apply Qlt_shift_inv_r.
        * change 0 with (inject_Z 0). rewrite <- Zlt_Qlt. apply Z.pow_pos_nonneg; lia.
        * unfold Qlt, Qmult. simpl. rewrite <- Z.add_1_r in Hbu. lia.
      + unfold Qle. simpl. nia. }
  destruct (scale_up_spec fuel (a # b) 0) as ([U1 U2] & U3 & U4).
  set (n1 := scale_up fuel (a # b) 0) in *.
  assert (Hn1 : (n1 <= la + 1)%Z).
  { destruct (decide (n1 <= la + 1)%Z) as [|Hgt]; [done|exfalso].
    assert (Qpow 10 (n1 - 1) <= a # b) by (apply U3; lia).
    assert (Qpow 10 (la + 1) <= Qpow 10 (n1 - 1)) by (apply Qpow_le_mono; lia).
    lra. }
  assert (Hlt1 : a # b < Qpow 10 n1) by (apply U4; lia).
  destruct (scale_down_spec fuel (a # b) n1) as ([D1 D2] & D3 & D4).
  set (n0 := scale_down fuel (a # b) n1) in *.
  split; [|by apply D3].
  apply D4.
  destruct (decide (n1 - Z.of_nat fuel < n0)%Z) as [|Hge]; [done|exfalso].
  assert (Hn0 : n0 = (n1 - Z.of_nat fuel)%Z) by lia.
  assert (a # b < Qpow 10 n0) by (by apply D3).
  destruct (decide (0 < n1)%Z) as [Hpos|Hzero].
  - assert (Qpow 10 (n1 - 1) <= a # b) by (by apply U3).
    assert (Qpow 10 n0 <= Qpow 10 (n1 - 1)) by (apply Qpow_le_mono; lia).
    lra.
  - assert (Qpow 10 n0 <= Qpow 10 (- (lb + 1))) by (apply Qpow_le_mono; lia).
    lra.
Qed.


Lemma Qpow_add b j k : (0 < b)%Z → Qpow b (j + k) == Qpow b j * Qpow b k.
Proof.
  intros Hb. unfold Qpow. apply Qpower_plus.
  intros H. apply (Qlt_irrefl 0). rewrite <- H at 2.
  change 0 with (inject_Z 0). by rewrite <- Zlt_Qlt.
Qed.

Lemma Qpow_half e : Qpow 2 (e - 1) == Qpow 2 e * (1 # 2).
Proof. rewrite (Qpow_pred 2 e) by done. change (inject_Z 2) with 2. ring. Qed.

Lemma Qvalue_eq m e : Qvalue m e == inject_Z m * Qpow 2 e.
Proof. unfold Qvalue. apply Qred_correct. Qed.

Lemma Qlt_bool_lt x y : Qlt_bool x y = true → x < y.
Proof.
  unfold Qlt_bool. intros H%negb_true_iff. apply Qnot_le_lt.
  intros Hle%Qle_bool_iff. congruence.
Qed.

Lemma Qlt_bool_true x y : x < y → Qlt_bool x y = true.
Proof.
  intros H. unfold Qlt_bool. apply negb_true_iff.
  destruct (Qle_bool y x) eqn:E; [|done]. apply Qle_bool_iff in E. lra.
Qed.

(** A number that rounds to the double is within half a unit in the last
    place of it. *)
Lemma rounds_to_bound m e y :
  rounds_to m e y = true →
  y - Qvalue m e <= Qpow 2 e * (1 # 2) ∧ Qvalue m e - y <= Qpow 2 e * (1 # 2).
Proof.
  unfold rounds_to. set (x := Qvalue m e).
  pose proof (Qpow_half e) as Hhalf.
  assert (Hq : Qpow 2 (e - 2) <= Qpow 2 (e - 1)) by (apply Qpow_le_mono; lia).
  assert (Hdown : (if (m =? 2 ^ 52)%Z then Qpow 2 (e - 2) else Qpow 2 (e - 1))
                  <= Qpow 2 e * (1 # 2)).
  { destruct (m =? 2 ^ 52)%Z; lra. }
  set (down := if (m =? 2 ^ 52)%Z then Qpow 2 (e - 2) else Qpow 2 (e - 1)) in *.
  destruct (Z.even m); intros [H1 H2]%andb_true_iff.
  - apply Qle_bool_iff in H1, H2. lra.
  - apply Qlt_bool_lt in H1, H2. lra.
Qed.

(** The double rounds to itself. *)
Lemma rounds_to_self m e y : y == Qvalue m e → rounds_to m e y = true.
Proof.
  intros Hy. unfold rounds_to. set (x := Qvalue m e) in *.
  assert (H1 : 0 < Qpow 2 (e - 1)) by by apply Qpow_pos.
  assert (H2 : 0 < Qpow 2 (e - 2)) by by apply Qpow_pos.
  assert (Hdown : 0 < (if (m =? 2 ^ 52)%Z then Qpow 2 (e - 2) else Qpow 2 (e - 1))).
  { by destruct (m =? 2 ^ 52)%Z. }
  set (down := if (m =? 2 ^ 52)%Z then Qpow 2 (e - 2) else Qpow 2 (e - 1)) in *.
  destruct (Z.even m); apply andb_true_iff; split.
  - apply Qle_bool_iff. lra.
  - apply Qle_bool_iff. lra.
  - apply Qlt_bool_true. lra.
  - apply Qlt_bool_true. lra.
Qed.

(** The two candidates of one level of the search. *)
Lemma level_facts x n0 k :
  0 < x → Qpow 10 (n0 - 1) <= x → x < Qpow 10 n0 → (1 <= k)%Z →
  let u := Qpow 10 (n0 - k) in
  let lo := Qfloor (x / u) in
  0 < u
  ∧ inject_Z lo * u <= x ∧ x < inject_Z (lo + 1) * u
  ∧ (10 ^ (k - 1) <= lo < 10 ^ k)%Z.
Proof.
  intros Hx Hlow Hhigh Hk u lo.
  assert (Hu : 0 < u) by by apply Qpow_pos.
  assert (Hlo : inject_Z lo <= x / u) by apply Qfloor_le.
  assert (Hhi : x / u < inject_Z (lo + 1)) by apply Qlt_floor.
  assert (Hxu : x / u * u == x) by (field; lra).
  split_and!; [done| | | |].
  - rewrite <- Hxu. apply Qmult_le_compat_r; lra.
  - rewrite <- Hxu. apply Qmult_lt_compat_r; lra.
  - assert (H : inject_Z (10 ^ (k - 1)) <= x / u).
    { apply Qle_shift_div_l; [done|].
      rewrite <- Qpow_nonneg_exp by lia. unfold u. rewrite <- Qpow_add by done.
      by replace (k - 1 + (n0 - k))%Z with (n0 - 1)%Z by lia. }
    apply Qfloor_resp_le in H. by rewrite Qfloor_Z in H.
  - assert (H : x / u < inject_Z (10 ^ k)).
    { apply Qlt_shift_div_r; [done|].
      rewrite <- Qpow_nonneg_exp by lia. unfold u. rewrite <- Qpow_add by done.
      by replace (k + (n0 - k))%Z with n0 by lia. }
    assert (H' : inject_Z lo < inject_Z (10 ^ k)) by lra.
    by rewrite <- Zlt_Qlt in H'.
Qed.


Lemma inject_Z_close a z :
  inject_Z a - inject_Z z <= 1 # 2 → inject_Z z - inject_Z a <= 1 # 2 → a = z.
Proof.
  intros H1 H2.
  assert (H1' : inject_Z a < inject_Z (z + 1)).
  { rewrite inject_Z_plus. change (inject_Z 1) with 1. lra. }
  assert (H2' : inject_Z z < inject_Z (a + 1)).
  { rewrite inject_Z_plus. change (inject_Z 1) with 1. lra. }
  rewrite <- Zlt_Qlt in H1', H2'. lia.
Qed.

(** What the search returns for a candidate that is close enough. *)
Lemma chosen_facts x E n0 k s0 :
  0 < x → Qpow 10 (n0 - 1) <= x → x < Qpow 10 n0 → (1 <= k)%Z →
  (s0 = Qfloor (x / Qpow 10 (n0 - k)) ∨ s0 = (Qfloor (x / Qpow 10 (n0 - k)) + 1)%Z) →
  inject_Z s0 * Qpow 10 (n0 - k) - x <= E * (1 # 2) →
  x - inject_Z s0 * Qpow 10 (n0 - k) <= E * (1 # 2) →
  (inject_Z (Qfloor (x / Qpow 10 (n0 - k))) * Qpow 10 (n0 - k) == x →
   s0 = Qfloor (x / Qpow 10 (n0 - k))) →
  let '(s, k', n) :=
    (if (s0 =? 10 ^ k)%Z then (10 ^ (k - 1), k, n0 + 1) else (s0, k, n0))%Z in
  k' = k ∧ (10 ^ (k - 1) <= s < 10 ^ k)%Z ∧ (n = n0 ∨ n = (n0 + 1)%Z)
  ∧ inject_Z s * Qpow 10 (n - k') - x <= E * (1 # 2)
  ∧ x - inject_Z s * Qpow 10 (n - k') <= E * (1 # 2)
  ∧ (∀ z, x == inject_Z z → E <= 1 → inject_Z s * Qpow 10 (n - k') == x).
Proof.
  intros Hx Hlow Hhigh Hk Hs0 Hup Hdown Hsel.
  destruct (level_facts x n0 k Hx Hlow Hhigh Hk) as (Hu & Hlo & Hhi & [Hd1 Hd2]).
  set (u := Qpow 10 (n0 - k)) in *. set (lo := Qfloor (x / u)) in *.
  (* exactness for the candidate itself *)
  assert (Hexact : ∀ z, x == inject_Z z → E <= 1 → inject_Z s0 * u == x).
  { intros z Hz HE. destruct (decide (0 <= n0 - k)%Z) as [Hnk|Hnk].
    - assert (Hu' : u == inject_Z (10 ^ (n0 - k))) by (by apply Qpow_nonneg_exp).
      assert (Heq : (s0 * 10 ^ (n0 - k))%Z = z).
      { apply inject_Z_close; rewrite inject_Z_mult, <- Hu', <- Hz; lra. }
      rewrite Hz, <- Heq, inject_Z_mult, Hu'. reflexivity.
    - assert (Hp : 0 < inject_Z (10 ^ (k - n0))).
      { change 0 with (inject_Z 0). rewrite <- Zlt_Qlt. apply Z.pow_pos_nonneg; lia. }
      assert (Hu' : u == / inject_Z (10 ^ (k - n0))).
      { unfold u. rewrite Qpow_neg_exp by lia. by replace (- (n0 - k))%Z with (k - n0)%Z by lia. }
      assert (Hxu : x / u == inject_Z (z * 10 ^ (k - n0))).
      { rewrite inject_Z_mult, Hz, Hu'. field. lra. }
      assert (Hlo' : lo = (z * 10 ^ (k - n0))%Z).
      { unfold lo. rewrite Hxu. apply Qfloor_Z. }
      assert (Hylo : inject_Z lo * u == x).
      { rewrite Hlo', inject_Z_mult, Hz, Hu'. field. lra. }
      by rewrite (Hsel Hylo). }
  assert (Hrange : (10 ^ (k - 1) <= s0 <= 10 ^ k)%Z) by (destruct Hs0; lia).
  destruct (Z.eqb_spec s0 (10 ^ k)) as [Hten|Hten].
  - assert (Hval : inject_Z (10 ^ (k - 1)) * Qpow 10 (n0 + 1 - k) == inject_Z s0 * u).
    { rewrite Hten. rewrite <- !Qpow_nonneg_exp by lia. unfold u.
      rewrite <- !Qpow_add by done. by replace (k - 1 + (n0 + 1 - k))%Z with (k + (n0 - k))%Z by lia. }
    split_and!; [done|lia| |by right| | |].
    + apply Z.pow_lt_mono_r; lia.
    + by rewrite Hval.
    + by rewrite Hval.
    + intros z Hz HE. rewrite Hval. by apply (Hexact z).
  - split_and!; [done|lia|lia|by left|done|done|done].
Qed.


Lemma shortest_digits_unfold fuel k m e n0 :
  shortest_digits fuel k m e n0 =
  let x := Qvalue m e in
  let unit := Qpow 10 (n0 - k) in
  let lo := Qfloor (x / unit) in
  let hi := (lo + 1)%Z in
  let ylo := inject_Z lo * unit in
  let yhi := inject_Z hi * unit in
  let norm (s : Z) :=
    (if s =? 10 ^ k then (10 ^ (k - 1), k, n0 + 1) else (s, k, n0))%Z in
  match rounds_to m e ylo, rounds_to m e yhi with
  | true, false => norm lo
  | false, true => norm hi
  | true, true =>
      match x - ylo ?= yhi - x with
      | Lt => norm lo
      | Gt => norm hi
      | Eq => if Z.even lo then norm lo else norm hi
      end
  | false, false =>
      match fuel with
      | O => norm lo
      | S f => shortest_digits f (k + 1) m e n0
      end
  end.
Proof. destruct fuel; reflexivity. Qed.

(** What [shortest_digits] returns: digits of the right length that
    denote a number within half a unit in the last place of the double,
    and the double itself when it is an integer. *)
Lemma shortest_digits_spec m e n0 :
  (2 ^ 52 <= m < 2 ^ 53)%Z →
  Qpow 10 (n0 - 1) <= Qvalue m e → Qvalue m e < Qpow 10 n0 →
  ∀ fuel k, (1 <= k)%Z → (k + Z.of_nat fuel = 21)%Z →
  let '(s, k', n) := shortest_digits fuel k m e n0 in
  (1 <= k' <= 21)%Z ∧ (10 ^ (k' - 1) <= s < 10 ^ k')%Z ∧ (n = n0 ∨ n = (n0 + 1)%Z)
  ∧ inject_Z s * Qpow 10 (n - k') - Qvalue m e <= Qpow 2 e * (1 # 2)
  ∧ Qvalue m e - inject_Z s * Qpow 10 (n - k') <= Qpow 2 e * (1 # 2)
  ∧ (∀ z, Qvalue m e == inject_Z z → Qpow 2 e <= 1 →
       inject_Z s * Qpow 10 (n - k') == Qvalue m e).
Proof.
  intros Hm Hlow Hhigh.
  pose proof (Qvalue_eq m e) as Hxe.
  set (x := Qvalue m e) in *. set (E := Qpow 2 e) in *.
  assert (HE : 0 < E) by by apply Qpow_pos.
  assert (Hx : 0 < x).
  { apply Qlt_le_trans with (Qpow 10 (n0 - 1)); [by apply Qpow_pos|done]. }
  assert (Hfound : ∀ k s0, (1 <= k <= 21)%Z →
            (s0 = Qfloor (x / Qpow 10 (n0 - k)) ∨ s0 = (Qfloor (x / Qpow 10 (n0 - k)) + 1)%Z) →
            inject_Z s0 * Qpow 10 (n0 - k) - x <= E * (1 # 2) →
            x - inject_Z s0 * Qpow 10 (n0 - k) <= E * (1 # 2) →
            (inject_Z (Qfloor (x / Qpow 10 (n0 - k))) * Qpow 10 (n0 - k) == x →
             s0 = Qfloor (x / Qpow 10 (n0 - k))) →
            let '(s, k', n) :=
              (if (s0 =? 10 ^ k)%Z then (10 ^ (k - 1), k, n0 + 1) else (s0, k, n0))%Z in
            (1 <= k' <= 21)%Z ∧ (10 ^ (k' - 1) <= s < 10 ^ k')%Z
            ∧ (n = n0 ∨ n = (n0 + 1)%Z)
            ∧ inject_Z s * Qpow 10 (n - k') - x <= E * (1 # 2)
            ∧ x - inject_Z s * Qpow 10 (n - k') <= E * (1 # 2)
            ∧ (∀ z, x == inject_Z z → E <= 1 → inject_Z s * Qpow 10 (n - k') == x)).
  { intros k s0 Hk Hs0 Hup Hdown Hsel.
    pose proof (chosen_facts x E n0 k s0 Hx Hlow Hhigh ltac:(lia) Hs0 Hup Hdown Hsel) as H.
    destruct (s0 =? 10 ^ k)%Z; destruct H as (_ & H); (split; [lia|done]). }
  assert (Hlevel : ∀ fuel k, (1 <= k)%Z → (k + Z.of_nat fuel = 21)%Z →
            (rounds_to m e (inject_Z (Qfloor (x / Qpow 10 (n0 - k))) * Qpow 10 (n0 - k)) = false →
             rounds_to m e (inject_Z (Qfloor (x / Qpow 10 (n0 - k)) + 1) * Qpow 10 (n0 - k)) = false →
             let '(s, k', n) :=
               match fuel with
               | O => (if (Qfloor (x / Qpow 10 (n0 - k)) =? 10 ^ k)%Z
                       then (10 ^ (k - 1), k, n0 + 1)
                       else (Qfloor (x / Qpow 10 (n0 - k)), k, n0))%Z
               | S f => shortest_digits f (k + 1) m e n0
               end in
             (1 <= k' <= 21)%Z ∧ (10 ^ (k' - 1) <= s < 10 ^ k')%Z
             ∧ (n = n0 ∨ n = (n0 + 1)%Z)
             ∧ inject_Z s * Qpow 10 (n - k') - x <= E * (1 # 2)
             ∧ x - inject_Z s * Qpow 10 (n - k') <= E * (1 # 2)
             ∧ (∀ z, x == inject_Z z → E <= 1 → inject_Z s * Qpow 10 (n - k') == x)) →
            let '(s, k', n) := shortest_digits fuel k m e n0 in
            (1 <= k' <= 21)%Z ∧ (10 ^ (k' - 1) <= s < 10 ^ k')%Z
            ∧ (n = n0 ∨ n = (n0 + 1)%Z)
            ∧ inject_Z s * Qpow 10 (n - k') - x <= E * (1 # 2)
            ∧ x - inject_Z s * Qpow 10 (n - k') <= E * (1 # 2)
            ∧ (∀ z, x == inject_Z z → E <= 1 → inject_Z s * Qpow 10 (n - k') == x)).
  { intros fuel k Hk Hfuel Hrest.
    rewrite shortest_digits_unfold; cbv zeta; fold x.
    destruct (level_facts x n0 k Hx Hlow Hhigh Hk) as (Hu & Hlo & Hhi & _).
    set (u := Qpow 10 (n0 - k)) in *. set (lo := Qfloor (x / u)) in *.
    assert (Hself : inject_Z lo * u == x → rounds_to m e (inject_Z lo * u) = true).
    { intros H. by apply rounds_to_self. }
    destruct (rounds_to m e (inject_Z lo * u)) eqn:Rlo;
      destruct (rounds_to m e (inject_Z (lo + 1) * u)) eqn:Rhi.
    - destruct (rounds_to_bound m e _ Rlo) as [Bl1 Bl2]; fold x E in Bl1, Bl2.
      destruct (rounds_to_bound m e _ Rhi) as [Bh1 Bh2]; fold x E in Bh1, Bh2.
      destruct (Qcompare_spec (x - inject_Z lo * u) (inject_Z (lo + 1) * u - x))
        as [Hc|Hc|Hc]; [destruct (Z.even lo)| |].
      + apply (Hfound k lo); [lia|by left|done|done|done].
      + apply (Hfound k (lo + 1)%Z); [lia|by right|done|done|].
        intros Hylo. change (inject_Z lo * u == x) in Hylo. exfalso. lra.
      + apply (Hfound k lo); [lia|by left|done|done|done].
      + apply (Hfound k (lo + 1)%Z); [lia|by right|done|done|].
        intros Hylo. change (inject_Z lo * u == x) in Hylo. exfalso. lra.
    - destruct (rounds_to_bound m e _ Rlo) as [Bl1 Bl2]; fold x E in Bl1, Bl2.
      apply (Hfound k lo); [lia|by left|done|done|done].
    - destruct (rounds_to_bound m e _ Rhi) as [Bh1 Bh2]; fold x E in Bh1, Bh2.
      apply (Hfound k (lo + 1)%Z); [lia|by right|done|done|].
      intros Hylo. specialize (Hself Hylo). congruence.
    - by apply Hrest. }
  induction fuel as [|fuel IH]; intros k Hk Hfuel; apply Hlevel; try done.
  - (* out of fuel: the 21-digit candidate below *)
    intros Rlo Rhi.
    destruct (level_facts x n0 k Hx Hlow Hhigh Hk) as (Hu & Hlo & Hhi & _).
    set (u := Qpow 10 (n0 - k)) in *. set (lo := Qfloor (x / u)) in *.
    assert (Hk21 : k = 21%Z) by lia.
    apply (Hfound k lo); [lia|by left| | |].
    + change (inject_Z lo * u - x <= E * (1 # 2)). lra.
    + change (x - inject_Z lo * u <= E * (1 # 2)).
      assert (Hunit : u == Qpow 10 (n0 - 1) * (1 # 100000000000000000000)).
      { unfold u. subst k. replace (n0 - 21)%Z with (n0 - 1 + -20)%Z by lia.
        rewrite Qpow_add by done. reflexivity. }
      assert (Hm' : inject_Z m < inject_Z (2 ^ 53)) by (rewrite <- Zlt_Qlt; lia).
      assert (HxE : x < inject_Z (2 ^ 53) * E).
      { rewrite Hxe. apply Qmult_lt_compat_r; done. }
      change (inject_Z (2 ^ 53)) with (9007199254740992 # 1) in HxE.
      rewrite inject_Z_plus in Hhi. change (inject_Z 1) with 1 in Hhi.
      lra.
    + intros Hylo. rewrite (rounds_to_self m e (inject_Z lo * u)) in Rlo by done.
      discriminate.
  - (* one more digit *)
    intros _ _. apply IH; lia.
Qed.


Local Open Scope Z_scope.

Lemma append_cons x (a b : string) : String x a +:+ b = String x (a +:+ b).
Proof. reflexivity. Qed.

Lemma append_assoc_string (a b c : string) : (a +:+ b) +:+ c = a +:+ (b +:+ c).
Proof. induction a as [|x a IH]; [done|]. by rewrite !append_cons, IH. Qed.

Lemma append_length (a b : string) :
  String.length (a +:+ b) = (String.length a + String.length b)%nat.
Proof.
  induction a as [|x a IH]; [done|].
  rewrite append_cons. cbn [String.length]. by rewrite IH.
Qed.

Lemma substring_prefix_app (a b : string) (j : nat) :
  (j <= String.length a)%nat → substring 0 j (a +:+ b) = substring 0 j a.
Proof.
  revert j. induction a as [|x a IH]; intros j Hj; cbn [String.length] in Hj.
  - assert (j = 0%nat) as -> by lia. by destruct b.
  - destruct j as [|j]; [done|]. rewrite append_cons. cbn [substring].
    rewrite IH; [done|lia].
Qed.

Lemma substring_whole (a : string) : substring 0 (String.length a) a = a.
Proof. induction a as [|x a IH]; cbn [String.length substring]; [done|]. by rewrite IH. Qed.

Lemma decimal_acc_app k : ∀ n acc, decimal_acc k n acc = decimal_acc k n "" +:+ acc.
Proof.
  induction k as [|k IH]; intros n acc; cbn [decimal_acc]; [done|].
  rewrite (IH (n / 10) (String (digit_char (n mod 10)) acc)).
  rewrite (IH (n / 10) (String (digit_char (n mod 10)) "")).
  by rewrite append_assoc_string.
Qed.

Lemma decimal_acc_length k : ∀ n, String.length (decimal_acc k n "") = k.
Proof.
  induction k as [|k IH]; intros n; cbn [decimal_acc]; [done|].
  rewrite decimal_acc_app, append_length, IH. cbn [String.length]. lia.
Qed.

Lemma decimal_acc_succ k n :
  decimal_acc (S k) n "" = decimal_acc k (n / 10) "" +:+ String (digit_char (n mod 10)) "".
Proof. cbn [decimal_acc]. by rewrite decimal_acc_app. Qed.

(** A prefix of the digits is the digits of the quotient. *)
Lemma substring_decimal k : ∀ n j,
  (j <= k)%nat →
  substring 0 j (decimal_acc k n "") = decimal_acc j (n / 10 ^ Z.of_nat (k - j)) "".
Proof.
  induction k as [|k IH]; intros n j Hj.
  - assert (j = 0%nat) as -> by lia. done.
  - destruct (decide (j = S k)) as [->|Hne].
    + rewrite <- (decimal_acc_length (S k) n) at 1. rewrite substring_whole.
      replace (S k - S k)%nat with 0%nat by lia. by rewrite Z.div_1_r.
    + rewrite decimal_acc_succ, substring_prefix_app
        by (rewrite decimal_acc_length; lia).
      rewrite IH by lia. f_equal.
      rewrite Z.div_div by (try apply Z.pow_pos_nonneg; lia).
      f_equal. replace (Z.of_nat (S k - j)) with (1 + Z.of_nat (k - j)) by lia.
      rewrite Z.pow_add_r by lia. done.
Qed.

Lemma digit_value_char d : 0 <= d <= 9 → digit_value (digit_char d) = Some d.
Proof.
  intros Hd.
  assert (H : d = 0 ∨ d = 1 ∨ d = 2 ∨ d = 3 ∨ d = 4 ∨ d = 5 ∨ d = 6 ∨ d = 7
              ∨ d = 8 ∨ d = 9) by lia.
  destruct H as [->|[->|[->|[->|[->|[->|[->|[->|[->| ->]]]]]]]]]; reflexivity.
Qed.

(** Reading the digits back. *)
Lemma parse_decimal_acc k : ∀ n acc a,
  0 <= n →
  parse_digits 10 (decimal_acc (S k) n acc) a
  = parse_digits 10 acc
      (Some (match a with Some v => v | None => 0 end * 10 ^ Z.of_nat (S k)
             + n mod 10 ^ Z.of_nat (S k))).
Proof.
  induction k as [|k IH]; intros n acc a Hn.
  - cbn [decimal_acc parse_digits].
    rewrite digit_value_char by (pose proof (Z.mod_pos_bound n 10); lia).
    pose proof (Z.mod_pos_bound n 10 ltac:(lia)).
    destruct (Z.ltb_spec (n mod 10) 10); [|lia].
    do 2 f_equal. change (10 ^ Z.of_nat 1) with 10. lia.
  - change (decimal_acc (S (S k)) n acc)
      with (decimal_acc (S k) (n / 10) (String (digit_char (n mod 10)) acc)).
    rewrite IH by (apply Z.div_pos; lia).
    cbn [parse_digits].
    pose proof (Z.mod_pos_bound n 10 ltac:(lia)).
    rewrite digit_value_char by lia.
    destruct (Z.ltb_spec (n mod 10) 10); [|lia].
    do 2 f_equal.
    replace (Z.of_nat (S (S k))) with (1 + Z.of_nat (S k)) by lia.
    rewrite (Z.pow_add_r 10 1) by lia. change (10 ^ 1) with 10.
    rewrite (Z.rem_mul_r n 10 (10 ^ Z.of_nat (S k))) by (try apply Z.pow_nonzero; lia).
    ring.
Qed.

(** [digits] of a number of [k] digits. *)
Lemma digits_acc_decimal k : ∀ fuel n acc,
  10 ^ Z.of_nat k <= n < 10 ^ Z.of_nat (S k) → (k <= fuel)%nat →
  digits_acc fuel n acc = decimal_acc (S k) n acc.
Proof.
  induction k as [|k IH]; intros fuel n acc [Hlo Hhi] Hfuel.
  - change (10 ^ Z.of_nat 1) with 10 in Hhi.
    destruct fuel; cbn [digits_acc decimal_acc]; [done|].
    by destruct (Z.ltb_spec n 10); [|lia].
  - destruct fuel as [|fuel]; [lia|]. cbn [digits_acc].
    assert (H10 : 10 <= n).
    { apply Z.le_trans with (10 ^ Z.of_nat (S k)); [|done].
      replace (Z.of_nat (S k)) with (1 + Z.of_nat k) by lia.
      rewrite Z.pow_add_r by lia. change (10 ^ 1) with 10.
      pose proof (Z.pow_pos_nonneg 10 (Z.of_nat k)). lia. }
    destruct (Z.ltb_spec n 10); [lia|].
    rewrite IH; [done| |lia].
    replace (Z.of_nat (S (S k))) with (1 + Z.of_nat (S k)) in Hhi by lia.
    replace (Z.of_nat (S k)) with (1 + Z.of_nat k) in Hlo by lia.
    rewrite Z.pow_add_r in Hlo, Hhi by lia. change (10 ^ 1) with 10 in Hlo, Hhi.
    split.
    + apply Z.div_le_lower_bound; lia.
    + apply Z.div_lt_upper_bound; lia.
Qed.

Lemma digits_decimal k n :
  10 ^ Z.of_nat k <= n < 10 ^ Z.of_nat (S k) → digits n = decimal_acc (S k) n "".
Proof.
  intros Hn. unfold digits. apply digits_acc_decimal; [done|].
  assert (H2 : 2 ^ Z.of_nat k <= n).
  { apply Z.le_trans with (10 ^ Z.of_nat k); [|lia]. apply Z.pow_le_mono_l. lia. }
  assert (0 < n) by (pose proof (Z.pow_pos_nonneg 2 (Z.of_nat k)); lia).
  apply Z.log2_le_pow2 in H2; lia.
Qed.


Lemma decimal_acc_head k : ∀ n acc,
  ∃ rest, decimal_acc (S k) n acc = String (digit_char ((n / 10 ^ Z.of_nat k) mod 10)) rest.
Proof.
  induction k as [|k IH]; intros n acc.
  - exists acc. cbn [decimal_acc]. by rewrite Z.div_1_r.
  - destruct (IH (n / 10) (String (digit_char (n mod 10)) acc)) as [rest Hrest].
    exists rest. change (decimal_acc (S (S k)) n acc)
      with (decimal_acc (S k) (n / 10) (String (digit_char (n mod 10)) acc)).
    rewrite Hrest. do 3 f_equal.
    rewrite Z.div_div by (try apply Z.pow_pos_nonneg; lia).
    f_equal. replace (Z.of_nat (S k)) with (1 + Z.of_nat k) by lia.
    by rewrite Z.pow_add_r by lia.
Qed.

(** A string that starts with a digit from 1 to 9 is read in radix 10
    from its first character. *)
Lemma parseInt_string_leading d rest :
  1 <= d <= 9 →
  parseInt_string (String (digit_char d) rest)
  = match parse_digits 10 (String (digit_char d) rest) None with
    | Some v => JSInt v
    | None => JSNaN
    end.
Proof.
  intros Hd.
  assert (H : d = 1 ∨ d = 2 ∨ d = 3 ∨ d = 4 ∨ d = 5 ∨ d = 6 ∨ d = 7 ∨ d = 8 ∨ d = 9)
    by lia.
  assert (Hone : ∀ o : option Z,
            match o with Some v => JSInt (1 * v) | None => JSNaN end
            = match o with Some v => JSInt v | None => JSNaN end).
  { intros [v|]; [|done]. by rewrite Z.mul_1_l. }
  destruct H as [->|[->|[->|[->|[->|[->|[->|[->| ->]]]]]]]]; apply Hone.
Qed.

Lemma parse_zeros j : ∀ a, parse_digits 10 (zeros j) (Some a) = Some (a * 10 ^ Z.of_nat j).
Proof.
  induction j as [|j IH]; intros a.
  - cbn [zeros parse_digits]. f_equal. change (10 ^ Z.of_nat 0) with 1. lia.
  - cbn [zeros parse_digits]. change (digit_value "0") with (Some 0).
    change (0 <? 10) with true. cbv iota. rewrite IH. f_equal.
    replace (Z.of_nat (S j)) with (1 + Z.of_nat j) by lia.
    rewrite Z.pow_add_r by lia. change (10 ^ 1) with 10. ring.
Qed.

(** Reading back a rendered number of [k] digits [s] with the decimal
    point after [n] digits, in the three layouts without exponent. *)
Lemma parseInt_render s k n :
  1 <= k → 10 ^ (k - 1) <= s < 10 ^ k → -6 < n <= 21 →
  parseInt_string (render s k n)
  = JSInt (if k <=? n then s * 10 ^ (n - k)
           else if 0 <? n then s / 10 ^ (k - n)
           else 0).
Proof.
  intros Hk Hs Hn. unfold render.
  set (k' := Z.to_nat (k - 1)).
  assert (Hk' : k = Z.of_nat (S k')) by (unfold k'; lia).
  assert (Hds : digits s = decimal_acc (S k') s "").
  { apply digits_decimal. rewrite <- Hk'. by replace (Z.of_nat k') with (k - 1) by lia. }
  destruct (Z.leb_spec k n) as [Hkn|Hkn].
  - (* digits followed by zeros *)
    destruct (Z.leb_spec n 21) as [_|?]; [|lia]. cbn [andb].
    rewrite Hds, <- decimal_acc_app.
    destruct (decimal_acc_head k' s (zeros (Z.to_nat (n - k)))) as [rest Hrest].
    rewrite Hrest, parseInt_string_leading.
    + rewrite <- Hrest, parse_decimal_acc by lia. cbn [parse_digits].
      rewrite parse_zeros. rewrite <- Hk'.
      rewrite Z.mod_small by lia. rewrite Z2Nat.id by lia. by rewrite Z.mul_0_l, Z.add_0_l.
    + replace (Z.of_nat k') with (k - 1) by lia.
      assert (1 <= s / 10 ^ (k - 1) <= 9).
      { split.
        - apply Z.div_le_lower_bound; [apply Z.pow_pos_nonneg; lia|lia].
        - assert (s / 10 ^ (k - 1) < 10); [|lia].
          apply Z.div_lt_upper_bound; [apply Z.pow_pos_nonneg; lia|].
          assert (Hpk : 10 ^ k = 10 ^ (k - 1) * 10).
          { replace k with (k - 1 + 1) at 1 by lia. by rewrite Z.pow_add_r by lia. }
          lia. }
      rewrite Z.mod_small; lia.
  - cbn [andb]. destruct (Z.ltb_spec 0 n) as [Hn0|Hn0].
    + (* some digits, the point, the other digits *)
      destruct (Z.leb_spec n 21) as [_|?]; [|lia]. cbn [andb].
      rewrite Hds, substring_decimal by lia.
      set (j := Z.to_nat (n - 1)).
      assert (Hj : Z.to_nat n = S j) by (unfold j; lia).
      rewrite Hj. replace (Z.of_nat (S k' - S j)) with (k - n) by lia.
      set (v := s / 10 ^ (k - n)).
      assert (Hv : 10 ^ Z.of_nat j <= v < 10 ^ Z.of_nat (S j)).
      { assert (Hp : 0 < 10 ^ (k - n)) by (apply Z.pow_pos_nonneg; lia).
        replace (Z.of_nat j) with (n - 1) by lia.
        replace (Z.of_nat (S j)) with n by lia. unfold v. split.
        - apply Z.div_le_lower_bound; [done|].
          rewrite <- Z.pow_add_r by lia. replace (k - n + (n - 1)) with (k - 1) by lia. lia.
        - apply Z.div_lt_upper_bound; [done|].
          rewrite <- Z.pow_add_r by lia. replace (k - n + n) with k by lia. lia. }
      set (tail := "." +:+ substring (S j) (Z.to_nat (k - n)) (decimal_acc (S k') s "")).
      rewrite <- (decimal_acc_app (S j) v tail).
      destruct (decimal_acc_head j v tail) as [rest Hrest].
      rewrite Hrest, parseInt_string_leading.
      * rewrite <- Hrest, parse_decimal_acc by (unfold v; apply Z.div_pos; [lia|apply Z.pow_pos_nonneg; lia]).
        unfold tail. change ("." +:+ ?x) with (String "." x). cbn [parse_digits].
        change (digit_value ".") with (@None Z). cbv iota.
        rewrite Z.mod_small by lia. by rewrite Z.mul_0_l, Z.add_0_l.
      * assert (1 <= v / 10 ^ Z.of_nat j <= 9).
        { assert (Hp : 0 < 10 ^ Z.of_nat j) by (apply Z.pow_pos_nonneg; lia). split.
          - apply Z.div_le_lower_bound; lia.
          - assert (v / 10 ^ Z.of_nat j < 10); [|lia].
            apply Z.div_lt_upper_bound; [done|].
            replace (Z.of_nat (S j)) with (1 + Z.of_nat j) in Hv by lia.
            rewrite Z.pow_add_r in Hv by lia. change (10 ^ 1) with 10 in Hv. lia. }
        rewrite Z.mod_small; lia.
    + (* zero, the point, zeros, the digits *)
      destruct (Z.ltb_spec (-6) n) as [_|?]; [|lia].
      destruct (Z.leb_spec n 0) as [_|?]; [|lia]. cbn [andb].
      reflexivity.
Qed.


Lemma leading_digit s k :
  1 <= k → 10 ^ (k - 1) <= s < 10 ^ k → 1 <= s / 10 ^ (k - 1) <= 9.
Proof.
  intros Hk Hs. split.
  - apply Z.div_le_lower_bound; [apply Z.pow_pos_nonneg; lia|lia].
  - assert (s / 10 ^ (k - 1) < 10); [|lia].
    apply Z.div_lt_upper_bound; [apply Z.pow_pos_nonneg; lia|].
    assert (Hpk : 10 ^ k = 10 ^ (k - 1) * 10).
    { replace k with (k - 1 + 1) at 1 by lia. by rewrite Z.pow_add_r by lia. }
    lia.
Qed.

(** Reading back a rendered number in the layout with an exponent, taken
    for numbers below 10^-6: [parseInt] stops at the point or at the
    letter e, after the first digit. *)
Lemma parseInt_render_exponent s k n :
  1 <= k → 10 ^ (k - 1) <= s < 10 ^ k → n <= -6 →
  parseInt_string (render s k n) = JSInt (s / 10 ^ (k - 1)).
Proof.
  intros Hk Hs Hn. unfold render.
  set (k' := Z.to_nat (k - 1)).
  assert (Hk' : k = Z.of_nat (S k')) by (unfold k'; lia).
  assert (Hds : digits s = decimal_acc (S k') s "").
  { apply digits_decimal. rewrite <- Hk'. by replace (Z.of_nat k') with (k - 1) by lia. }
  pose proof (leading_digit s k Hk Hs) as Hd.
  destruct (Z.leb_spec k n) as [?|_]; [lia|].
  destruct (Z.ltb_spec 0 n) as [?|_]; [lia|].
  destruct (Z.ltb_spec (-6) n) as [?|_]; [lia|]. cbn [andb].
  set (ex := (if 0 <=? n - 1 then "+" else "-") +:+ digits (Z.abs (n - 1))).
  destruct (decimal_acc_head k' s "") as [rest Hrest].
  rewrite Hds, Hrest. replace (Z.of_nat k') with (k - 1) by lia.
  rewrite (Z.mod_small (s / 10 ^ (k - 1)) 10) by lia.
  set (d := s / 10 ^ (k - 1)) in *.
  assert (Hparse : ∀ c tl, digit_value c = None ∨ digit_value c = Some 14 →
            parseInt_string (String (digit_char d) (String c tl)) = JSInt d).
  { intros c tl Hc. rewrite parseInt_string_leading by done. cbn [parse_digits].
    rewrite digit_value_char by lia.
    destruct (Z.ltb_spec d 10) as [_|?]; [|lia].
    destruct Hc as [-> | ->]; by rewrite Z.mul_0_r, Z.add_0_l. }
  destruct (Z.eqb_spec k 1) as [Hk1|Hk1].
  - assert (k' = 0%nat) as Hz by lia. rewrite Hz in Hrest.
    cbn [decimal_acc] in Hrest. injection Hrest as _ <-.
    change (parseInt_string (String (digit_char d) (String "e" ex)) = JSInt d).
    apply Hparse. by right.
  - assert (Hsub : ∀ c tl, substring 0 1 (String c tl) = String c "").
    { intros c tl. cbn [substring]. by destruct tl. }
    rewrite Hsub.
    change (String (digit_char d) "" +:+ "." +:+ ?tl)
      with (String (digit_char d) (String "." tl)).
    apply Hparse. by left.
Qed.

Local Open Scope Q_scope.

Lemma Qpow2_lt_1 e : Qpow 2 e < 1 → (e < 0)%Z.
Proof.
  intros H. destruct (decide (e < 0)%Z) as [|Hge]; [done|exfalso].
  rewrite Qpow_nonneg_exp in H by lia.
  change 1 with (inject_Z 1) in H. rewrite <- Zlt_Qlt in H.
  pose proof (Z.pow_pos_nonneg 2 e). lia.
Qed.

Lemma inject_Z_pos z : (0 < z)%Z → 0 < inject_Z z.
Proof. intros H. change 0 with (inject_Z 0). by rewrite <- Zlt_Qlt. Qed.

(** What [Number_toString] prints for a quotient of positive integers:
    digits [s], their number [k] and the position [n] of the point, with
    the distances between the quotient, the double [m * 2^e] and the
    printed decimal. *)
Lemma printed_quotient t c :
  (0 < t)%Z → (0 < c)%Z →
  ∃ m e s k n,
    Number_toString (Number_div t c) = render s k n
    ∧ (1 <= k <= 21)%Z ∧ (10 ^ (k - 1) <= s < 10 ^ k)%Z
    ∧ inject_Z (2 ^ 52) * Qpow 2 e <= Qvalue m e
    ∧ Qvalue m e - inject_Z t / inject_Z c <= Qpow 2 e * (1 # 2)
    ∧ inject_Z t / inject_Z c - Qvalue m e <= Qpow 2 e * (1 # 2)
    ∧ ((e < 0)%Z → (c | t)%Z → Qvalue m e == inject_Z t / inject_Z c)
    ∧ inject_Z s * Qpow 10 (n - k) - Qvalue m e <= Qpow 2 e * (1 # 2)
    ∧ Qvalue m e - inject_Z s * Qpow 10 (n - k) <= Qpow 2 e * (1 # 2)
    ∧ (∀ z, Qvalue m e == inject_Z z → Qpow 2 e <= 1 →
         inject_Z s * Qpow 10 (n - k) == Qvalue m e).
Proof.
  intros Ht Hc. unfold Number_div.
  destruct (Z.eqb_spec c 0) as [?|_]; [lia|].
  destruct (Z.eqb_spec t 0) as [?|_]; [lia|].
  rewrite !Z.abs_eq by lia.
  destruct (Z.ltb_spec t 0) as [?|_]; [lia|].
  destruct (Z.ltb_spec c 0) as [?|_]; [lia|]. cbn [xorb].
  pose proof (binary64_of_ratio_Q t c Ht Hc) as HQ.
  destruct (binary64_of_ratio t c) as [m e]. destruct HQ as (Hm & Hup & Hdown & Hexact).
  unfold Number_toString. destruct (Z.eqb_spec m 0) as [?|_]; [lia|].
  pose proof (Qvalue_eq m e) as Hxe.
  rewrite <- Hxe in Hup, Hdown, Hexact.
  assert (HE : 0 < Qpow 2 e) by by apply Qpow_pos.
  assert (HxE : inject_Z (2 ^ 52) * Qpow 2 e <= Qvalue m e).
  { rewrite Hxe. apply Qmult_le_compat_r; [|lra]. rewrite <- Zle_Qle. lia. }
  assert (Hx : 0 < Qvalue m e).
  { change (inject_Z (2 ^ 52)) with (4503599627370496 # 1) in HxE. lra. }
  destruct (decimal_exponent_spec (Qvalue m e) Hx) as [Hlow Hhigh].
  pose proof (shortest_digits_spec m e _ Hm Hlow Hhigh 20 1 ltac:(lia) ltac:(lia)) as HS.
  destruct (shortest_digits 20 1 m e (decimal_exponent (Qvalue m e))) as [[s k] n].
  destruct HS as (Hk & Hs & Hn & Hyu & Hyd & Hyexact).
  exists m, e, s, k, n.
  split; [reflexivity|]. split; [exact Hk|]. split; [exact Hs|].
  split; [exact HxE|]. split; [exact Hup|]. split; [exact Hdown|].
  split; [exact Hexact|]. split; [exact Hyu|]. split; [exact Hyd|]. exact Hyexact.
Qed.

(** [parseInt(t / c)] is the floored quotient when the quotient is at
    least 1/999999 and the dividend is below 2^51. *)
Theorem parseInt_Number_div t c :
  (0 < t < 2 ^ 51)%Z → (0 < c)%Z → (c <= 999999 * t)%Z →
  parseInt (Number_div t c) = JSInt (t / c).
Proof.
  intros [Ht Ht51] Hc Hct. unfold parseInt.
  destruct (printed_quotient t c Ht Hc)
    as (m & e & s & k & n & -> & Hk & Hs & HxE & Hup & Hdown & Hexact & Hyu & Hyd & Hyexact).
  set (x := Qvalue m e) in *. set (E := Qpow 2 e) in *.
  assert (HE : 0 < E) by by apply Qpow_pos.
  change (inject_Z (2 ^ 52)) with (4503599627370496 # 1) in HxE.
  (* the quotient and its integer part *)
  unfold Qdiv in *. set (r := / inject_Z c) in *. set (q := inject_Z t * r) in *.
  assert (HC : 0 < inject_Z c) by by apply inject_Z_pos.
  assert (Hr : 0 < r) by by apply Qinv_lt_0_compat.
  assert (Hcr : inject_Z c * r == 1) by (unfold r; field; lra).
  assert (Hscale : ∀ a b, (a <= b)%Z → inject_Z a * r <= inject_Z b * r).
  { intros a b Hab. apply Qmult_le_compat_r; [|lra]. by rewrite <- Zle_Qle. }
  assert (Hunit : ∀ a, inject_Z (a * c) * r == inject_Z a).
  { intros a. rewrite inject_Z_mult, <- Qmult_assoc, Hcr. ring. }
  set (N := (t / c)%Z).
  pose proof (Z.div_mod t c ltac:(lia)) as Hdm. fold N in Hdm.
  pose proof (Z.mod_pos_bound t c Hc) as Hmod.
  assert (HN0 : (0 <= N)%Z) by (apply Z.div_pos; lia).
  assert (HNt : (N <= t)%Z) by nia.
  assert (HNq : inject_Z N <= q).
  { rewrite <- (Hunit N). apply Hscale. lia. }
  assert (HqN : q + r <= inject_Z N + 1).
  { assert (H : inject_Z (t + 1) * r <= inject_Z ((N + 1) * c) * r) by (apply Hscale; lia).
    rewrite Hunit, !inject_Z_plus in H. change (inject_Z 1) with 1 in H.
    unfold q. lra. }
  assert (Hq51 : q < (2251799813685248 # 1) * r).
  { unfold q. apply Qmult_lt_compat_r; [done|].
    change (2251799813685248 # 1) with (inject_Z (2 ^ 51)). by rewrite <- Zlt_Qlt. }
  assert (Hq6 : 1 <= (999999 # 1) * q).
  { assert (H : inject_Z c * r <= inject_Z (999999 * t) * r) by by apply Hscale.
    rewrite Hcr, inject_Z_mult in H. change (inject_Z 999999) with (999999 # 1) in H.
    unfold q. lra. }
  assert (HEr : E < r) by lra.
  assert (Hr1 : r <= 1).
  { assert (H : inject_Z 1 * r <= inject_Z c * r) by (apply Hscale; lia).
    rewrite Hcr in H. change (inject_Z 1) with 1 in H. lra. }
  (* the printed number lies between the integer part and its successor *)
  assert (Hyhi : inject_Z s * Qpow 10 (n - k) < inject_Z N + 1) by lra.
  assert (Hylo : inject_Z N <= inject_Z s * Qpow 10 (n - k)).
  { destruct (decide (t mod c = 0)%Z) as [Hz|Hnz].
    - assert (HqN' : q == inject_Z N).
      { unfold q. rewrite <- (Hunit N). by replace t with (N * c)%Z at 1 by lia. }
      assert (He : (e < 0)%Z) by (apply Qpow2_lt_1; fold E; lra).
      assert (Hdiv : (c | t)%Z) by (apply Z.mod_divide; [lia|done]).
      assert (Hxq : x == inject_Z N) by (rewrite <- HqN'; by apply Hexact).
      rewrite (Hyexact N Hxq ltac:(lra)). lra.
    - assert (H : inject_Z ((N * c) + 1) * r <= inject_Z t * r) by (apply Hscale; lia).
      rewrite inject_Z_plus, Qmult_plus_distr_l, Hunit in H.
      change (inject_Z 1) with 1 in H. fold q in H. lra. }
  set (y := inject_Z s * Qpow 10 (n - k)) in *.
  (* the position of the decimal point *)
  assert (Hy10 : Qpow 10 (n - 1) <= y ∧ y < Qpow 10 n).
  { assert (Hp : 0 < Qpow 10 (n - k)) by by apply Qpow_pos.
    split.
    - replace (n - 1)%Z with (k - 1 + (n - k))%Z by lia.
      rewrite Qpow_add by done. rewrite (Qpow_nonneg_exp 10 (k - 1)) by lia.
      apply Qmult_le_compat_r; [|lra]. rewrite <- Zle_Qle. lia.
    - assert (Hsplit : Qpow 10 n == Qpow 10 k * Qpow 10 (n - k)).
      { rewrite <- Qpow_add by done. by replace (k + (n - k))%Z with n by lia. }
      rewrite Hsplit, (Qpow_nonneg_exp 10 k) by lia.
      apply Qmult_lt_compat_r; [done|]. rewrite <- Zlt_Qlt. lia. }
  destruct Hy10 as [Hy10l Hy10u].
  assert (HN51 : inject_Z N <= 2251799813685248 # 1).
  { change (2251799813685248 # 1) with (inject_Z (2 ^ 51)). rewrite <- Zle_Qle. lia. }
  assert (Hn21 : (n <= 21)%Z).
  { destruct (decide (n <= 21)%Z) as [|Hgt]; [done|exfalso].
    assert (H : Qpow 10 16 <= Qpow 10 (n - 1)) by (apply Qpow_le_mono; lia).
    change (Qpow 10 16) with (10000000000000000 # 1) in H. lra. }
  assert (Hn6 : (-6 < n)%Z).
  { destruct (decide (-6 < n)%Z) as [|Hle]; [done|exfalso].
    assert (H : Qpow 10 n <= Qpow 10 (-6)) by (apply Qpow_le_mono; lia).
    change (Qpow 10 (-6)) with (1 # 1000000) in H. lra. }
  rewrite parseInt_render by (done || lia). f_equal.
  destruct (Z.leb_spec k n) as [Hkn|Hkn].
  - assert (Hyz : y == inject_Z (s * 10 ^ (n - k))).
    { unfold y. rewrite inject_Z_mult. by rewrite Qpow_nonneg_exp by lia. }
    rewrite Hyz in Hylo, Hyhi.
    assert (H1 : inject_Z (s * 10 ^ (n - k)) < inject_Z (N + 1)).
    { rewrite inject_Z_plus. by change (inject_Z 1) with 1. }
    rewrite <- Zle_Qle in Hylo. rewrite <- Zlt_Qlt in H1. lia.
  - destruct (Z.ltb_spec 0 n) as [Hn0|Hn0].
    + assert (HP : (0 < 10 ^ (k - n))%Z) by (apply Z.pow_pos_nonneg; lia).
      assert (HPq : 0 < inject_Z (10 ^ (k - n))) by by apply inject_Z_pos.
      assert (Hyz : y == inject_Z s * / inject_Z (10 ^ (k - n))).
      { unfold y. rewrite Qpow_neg_exp by lia. by replace (- (n - k))%Z with (k - n)%Z by lia. }
      assert (Hsw : inject_Z s ==
                    inject_Z s * / inject_Z (10 ^ (k - n)) * inject_Z (10 ^ (k - n)))
        by (field; lra).
      rewrite Hyz in Hylo, Hyhi.
      assert (H1 : inject_Z (N * 10 ^ (k - n)) <= inject_Z s).
      { rewrite inject_Z_mult, Hsw. apply Qmult_le_compat_r; lra. }
      assert (H2 : inject_Z s < inject_Z ((N + 1) * 10 ^ (k - n))).
      { rewrite inject_Z_mult, inject_Z_plus, Hsw. change (inject_Z 1) with 1.
        apply Qmult_lt_compat_r; lra. }
      rewrite <- Zle_Qle in H1. rewrite <- Zlt_Qlt in H2.
      symmetry. apply (Z.div_unique s (10 ^ (k - n)) N (s - N * 10 ^ (k - n))); lia.
    + assert (H : Qpow 10 n <= Qpow 10 0) by (apply Qpow_le_mono; lia).
      change (Qpow 10 0) with 1 in H.
      assert (H1 : inject_Z N < inject_Z 1) by (change (inject_Z 1) with 1; lra).
      rewrite <- Zlt_Qlt in H1. lia.
Qed.


Lemma parseInt_zero_dividend c : c ≠ 0%Z → parseInt (Number_div 0 c) = JSInt 0.
Proof.
  intros Hc. unfold Number_div. destruct (Z.eqb_spec c 0) as [?|_]; [done|].
  by destruct (c <? 0)%Z.
Qed.


(** Below 1/1000001 the printed quotient has an exponent, and [parseInt]
    returns its first digit. *)
Theorem parseInt_small_quotient t c :
  (0 < t)%Z → (1000001 * t <= c)%Z →
  ∃ d, (1 <= d <= 9)%Z ∧ parseInt (Number_div t c) = JSInt d.
Proof.
  intros Ht Hct. assert (Hc : (0 < c)%Z) by lia. unfold parseInt.
  destruct (printed_quotient t c Ht Hc)
    as (m & e & s & k & n & -> & Hk & Hs & HxE & Hup & Hdown & _ & Hyu & Hyd & _).
  set (x := Qvalue m e) in *. set (E := Qpow 2 e) in *.
  assert (HE : 0 < E) by by apply Qpow_pos.
  change (inject_Z (2 ^ 52)) with (4503599627370496 # 1) in HxE.
  unfold Qdiv in *. set (r := / inject_Z c) in *. set (q := inject_Z t * r) in *.
  assert (HC : 0 < inject_Z c) by by apply inject_Z_pos.
  assert (Hr : 0 < r) by by apply Qinv_lt_0_compat.
  assert (Hcr : inject_Z c * r == 1) by (unfold r; field; lra).
  assert (Hq : (1000001 # 1) * q <= 1).
  { assert (H : inject_Z (1000001 * t) * r <= inject_Z c * r).
    { apply Qmult_le_compat_r; [|lra]. by rewrite <- Zle_Qle. }
    rewrite Hcr, inject_Z_mult in H. change (inject_Z 1000001) with (1000001 # 1) in H.
    unfold q. lra. }
  assert (Hy : Qpow 10 (n - 1) <= inject_Z s * Qpow 10 (n - k)).
  { assert (Hp : 0 < Qpow 10 (n - k)) by by apply Qpow_pos.
    replace (n - 1)%Z with (k - 1 + (n - k))%Z by lia.
    rewrite Qpow_add by done. rewrite (Qpow_nonneg_exp 10 (k - 1)) by lia.
    apply Qmult_le_compat_r; [|lra]. rewrite <- Zle_Qle. lia. }
  set (y := inject_Z s * Qpow 10 (n - k)) in *.
  assert (Hn : (n <= -6)%Z).
  { destruct (decide (n <= -6)%Z) as [|Hgt]; [done|exfalso].
    assert (H : Qpow 10 (-6) <= Qpow 10 (n - 1)) by (apply Qpow_le_mono; lia).
    change (Qpow 10 (-6)) with (1 # 1000000) in H. lra. }
  exists (s / 10 ^ (k - 1))%Z. split; [apply leading_digit; lia|].
  apply parseInt_render_exponent; lia.
Qed.

Local Open Scope Z_scope.

(** [averageOf] is the floored quotient on totals below 2^51 that are 0
    or at least [count / 999999]. *)
Lemma averageOf_floor t c :
  0 ≤ t < 2 ^ 51 → 0 ≤ c → t = 0 ∨ c ≤ 999999 * t →
  averageOf t c = JSInt (t / c).
Proof.
  intros Ht Hc Hr. unfold averageOf.
  destruct (Z.eqb_spec c 0) as [->|Hc0]; [by rewrite Z.div_0_r|].
  destruct (decide (t = 0)) as [->|Ht0].
  - by rewrite parseInt_zero_dividend, Z.div_0_l.
  - apply parseInt_Number_div; lia.
Qed.


End NumberFacts.

(** ** Averages and row counters as integers *)

Lemma averageOf_tiny t c :
  0 < t → 1000001 * t ≤ c →
  ∃ d, 1 ≤ d ≤ 9 ∧ averageOf t c = JSInt d ∧ t / c = 0.
Proof.
  intros Ht Hc. destruct (parseInt_small_quotient t c Ht Hc) as (d & Hd & Hp).
  exists d. split; [exact Hd|]. split.
  - unfold averageOf. destruct (Z.eqb_spec c 0) as [?|_]; [lia|exact Hp].
  - apply Z.div_small. lia.
Qed.

Lemma averaged_run hs : averaged (run hs new).
Proof.
  induction hs as [|h hs IH] using rev_ind.
  - intros k r. change (metrics (run [] new)) with (∅ : gmap string Metrics).
    by rewrite lookup_empty.
  - rewrite run_snoc. apply averaged_call; [apply counted_run|done].
Qed.

(** X16: in every state reached from a fresh engine, an average is the
    floored quotient of its total by its count whenever the total is
    below 2^51 and is 0 or at least [count / 999999]: the averages of
    durations of a microsecond or more are floors. *)
Theorem averages_are_floors_in_range hs k r :
  metrics (run hs new) !! k = Some r →
  (floorRange (successMillisecondsTotal r) (successCount r) →
   successMillisecondsAverage r
   = JSInt (successMillisecondsTotal r / successCount r))
  ∧ (floorRange (errorMillisecondsTotal r) (errorCount r) →
     errorMillisecondsAverage r
     = JSInt (errorMillisecondsTotal r / errorCount r)).
Proof.
  intros Hr.
  destruct (averaged_run hs k r Hr) as [-> ->].
  destruct (totalled_run hs k r Hr) as (Hs & He & _).
  destruct (counted_run hs k r Hr) as (Hcs & Hce & _).
  split; intros (Ht & _ & Hq); apply averageOf_floor; (done || lia).
Qed.

(** X17: a completion that brings a total to more than 0 while the
    count is at least 1000001 times the total stores as average the
    first digit of the quotient, a number from 1 to 9, where the floored
    quotient is 0. *)
Theorem tiny_average_is_first_digit q d f a c e this :
  (tinyRange
     (successMillisecondsTotal (recordBefore this (unparametrize_sql_query q))
      + adjustedDuration this d)
     (successCount (recordBefore this (unparametrize_sql_query q)) + 1) →
   ∃ digit, 1 ≤ digit ≤ 9
     ∧ successMillisecondsAverage
         (recordBefore (onResult q d f a c this) (unparametrize_sql_query q))
       = JSInt digit
     ∧ successMillisecondsTotal
         (recordBefore (onResult q d f a c this) (unparametrize_sql_query q))
       / successCount
           (recordBefore (onResult q d f a c this) (unparametrize_sql_query q))
       = 0)
  ∧ (tinyRange
       (errorMillisecondsTotal (recordBefore this (unparametrize_sql_query q))
        + adjustedDuration this d)
       (errorCount (recordBefore this (unparametrize_sql_query q)) + 1) →
     ∃ digit, 1 ≤ digit ≤ 9
       ∧ errorMillisecondsAverage
           (recordBefore (onError q d e this) (unparametrize_sql_query q))
         = JSInt digit
       ∧ errorMillisecondsTotal
           (recordBefore (onError q d e this) (unparametrize_sql_query q))
         / errorCount
             (recordBefore (onError q d e this) (unparametrize_sql_query q))
         = 0).
Proof.
  split; intros (Ht & _ & Hc).
  - rewrite recordBefore_onResult.
    cbn [recordSuccess successMillisecondsAverage successMillisecondsTotal successCount].
    destruct (averageOf_tiny _ _ Ht Hc) as (digit & Hd & Ha & Hz).
    exists digit. split; [exact Hd|]. split; [|exact Hz].
    rewrite <- Ha. unfold averageOf.
    by destruct (Z.eqb_spec (successCount (recordBefore this (unparametrize_sql_query q)) + 1) 0);
      [lia|].
  - rewrite recordBefore_onError.
    cbn [recordError errorMillisecondsAverage errorMillisecondsTotal errorCount].
    destruct (averageOf_tiny _ _ Ht Hc) as (digit & Hd & Ha & Hz).
    exists digit. split; [exact Hd|]. split; [|exact Hz].
    rewrite <- Ha. unfold averageOf.
    by destruct (Z.eqb_spec (errorCount (recordBefore this (unparametrize_sql_query q)) + 1) 0);
      [lia|].
Qed.





End Engine.

(** ** The patch of the earlier revision *)

Section LegacyFacts.

Import Legacy.

Variable unparametrize_sql_query : string → string.
Variable getTime : nat → Z.

Lemma patched_stays w self :
  _bPerformanceCountersPatchApplied (prototype w) = true →
  monkeyPatchPromiseMySQLJSConnection self w = w.
Proof. intros H. unfold monkeyPatchPromiseMySQLJSConnection. by rewrite H. Qed.

Lemma patched_stays_all selfs w :
  _bPerformanceCountersPatchApplied (prototype w) = true →
  fold_left (λ w self, monkeyPatchPromiseMySQLJSConnection self w) selfs w = w.
Proof.
  intros H. induction selfs as [|self selfs IH]; [done|].
  cbn [fold_left]. by rewrite patched_stays.
Qed.

(** X22: the patch is applied once per class of connections, for the
    engine that asks first.  When a class is not patched yet and
    [monkeyPatchPromiseMySQLJSConnection] is called by engine [first] and
    then by any engines any number of times, a call of [query] goes
    through one wrapper: [first] receives [onQuery] when the call is made
    and, when the driver's promise settles, [onResult] with the result or
    [onError] with the error, with the time between the two clock
    readings; no other engine receives anything, and the caller gets the
    result or the error unchanged. *)
Theorem patch_serves_the_first_engine_only first selfs w strQuery outcome :
  _bPerformanceCountersPatchApplied (prototype w) = false →
  query (prototype w) = [] →
  let w' :=
    fold_left (λ w self, monkeyPatchPromiseMySQLJSConnection self w) (first :: selfs) w in
  query (prototype w') = [first]
  ∧ let '(calls, w1) := enter getTime (query (prototype w')) w' in
    let '(w2, handed) := settle unparametrize_sql_query getTime strQuery outcome calls w1 in
    engines w1 = alter onQuery first (engines w)
    ∧ handed = outcome
    ∧ engines w2
      = alter
          (λ this,
             let nDurationMilliseconds :=
               getTime (S (clockReads w)) - getTime (clockReads w) in
             match outcome with
             | Resolved mxResult =>
                 onResult unparametrize_sql_query strQuery nDurationMilliseconds mxResult
                   (onQuery this)
             | Rejected error =>
                 onError unparametrize_sql_query strQuery nDurationMilliseconds error
                   (onQuery this)
             end)
          first (engines w).
Proof.
  intros Hflag Hquery. cbv zeta. cbn [fold_left].
  assert (Hp : monkeyPatchPromiseMySQLJSConnection first w
               = {| engines := engines w;
                    prototype := {| _bPerformanceCountersPatchApplied := true;
                                    query := [first] |};
                    clockReads := clockReads w |}).
  { unfold monkeyPatchPromiseMySQLJSConnection. by rewrite Hflag, Hquery. }
  rewrite Hp, patched_stays_all by done.
  cbn [prototype query enter settle engines clockReads rev app fold_left resume
       self nStartUnixTimeMilliseconds].
  split; [done|]. split; [done|]. split; [done|].
  rewrite list_alter_alter_eq. by destruct outcome.
Qed.

End LegacyFacts.

(** ** The theorems at concrete calls

    The engine is run with [digits_to_marks] as normalizer. *)

Lemma end_to_end_scenario_witness :
  digits_to_marks "SELECT 1 FROM table" = "SELECT ? FROM table"
  ∧ digits_to_marks "SELECT 1 FROM another_table" = "SELECT ? FROM another_table"
  ∧ (let s0 := setLatency 50 false new in
     let s2 := onQuery (onQuery s0) in
     let s3 := onResult digits_to_marks "SELECT 1 FROM table" 100 3 0 0 s2 in
     let s4 := onError digits_to_marks "SELECT 1 FROM another_table" 53 (VError "test") s3 in
     runningQueriesCount s2 = 2
     ∧ adjustedDuration s2 100 = 50
     ∧ runningQueriesCount s3 = 1
     ∧ metrics s3 !! "SELECT ? FROM table" =
         Some {| successCount := 1; errorCount := 0;
                 successMillisecondsTotal := 50; errorMillisecondsTotal := 0;
                 successMillisecondsAverage := JSInt 50; errorMillisecondsAverage := JSInt 0;
                 fetchedRows := JSInt 3; affectedRows := JSInt 0; changedRows := JSInt 0 |}
     ∧ adjustedDuration s3 53 = 3
     ∧ runningQueriesCount s4 = 0
     ∧ metrics s4 !! "SELECT ? FROM another_table" =
         Some {| successCount := 0; errorCount := 1;
                 successMillisecondsTotal := 0; errorMillisecondsTotal := 3;
                 successMillisecondsAverage := JSInt 0; errorMillisecondsAverage := JSInt 3;
                 fetchedRows := JSInt 0; affectedRows := JSInt 0; changedRows := JSInt 0 |}).
Proof.
  split; [reflexivity|]. split; [reflexivity|].
  apply (end_to_end_scenario digits_to_marks (VError "test")); reflexivity.
Defined.

Lemma uncalibrated_duration_is_floored_input_witness :
  _nLatencyMilliseconds new = None
  ∧ adjustedDuration new (-4) = Z.max 0 (-4)
  ∧ (∃ r, metrics (onResult digits_to_marks "SELECT 1" (-4) 2 0 0 new) !! "SELECT ?" = Some r
          ∧ successMillisecondsTotal r
            = successMillisecondsTotal (recordBefore new "SELECT ?") + Z.max 0 (-4))
  ∧ (∃ r, metrics (onError digits_to_marks "SELECT 1" (-4) undefined new) !! "SELECT ?" = Some r
          ∧ errorMillisecondsTotal r
            = errorMillisecondsTotal (recordBefore new "SELECT ?") + Z.max 0 (-4)).
Proof.
  split; [reflexivity|].
  apply (uncalibrated_duration_is_floored_input digits_to_marks
           "SELECT 1" (-4) 2 0 0 undefined new).
  reflexivity.
Defined.

Lemma record_exists_iff_observed_since_clear_witness :
  is_Some (metrics (run digits_to_marks
                      [OnResult "SELECT 9" 4 0 0 0; Clear;
                       OnError "SELECT 1" 3 undefined; OnQuery] new)
           !! "SELECT ?").
Proof.
  apply (proj1 (record_exists_iff_observed_since_clear digits_to_marks
                  [OnResult "SELECT 9" 4 0 0 0; Clear;
                   OnError "SELECT 1" 3 undefined; OnQuery] "SELECT ?")).
  exists [OnResult "SELECT 9" 4 0 0 0; Clear], (OnError "SELECT 1" 3 undefined), [OnQuery].
  split; [reflexivity|]. split; [reflexivity|].
  apply not_elem_of_cons. split; [discriminate|]. apply not_elem_of_nil.
Defined.

Lemma counters_never_decrease_until_clear_witness :
  (Clear ∉ [OnQuery; OnError "SELECT 2" 1 undefined; SetLatency 3 false])
  ∧ metrics (run digits_to_marks [OnResult "SELECT 1" 5 0 0 0] new) !! "SELECT ?"
    = Some (recordSuccess 5 0 0 0 emptyMetrics)
  ∧ 0 ≤ successCount (recordSuccess 5 0 0 0 emptyMetrics)
  ∧ 0 ≤ errorCount (recordSuccess 5 0 0 0 emptyMetrics)
  ∧ ∃ r', metrics (run digits_to_marks
                     ([OnResult "SELECT 1" 5 0 0 0]
                      ++ [OnQuery; OnError "SELECT 2" 1 undefined; SetLatency 3 false]) new)
          !! "SELECT ?" = Some r'
          ∧ successCount (recordSuccess 5 0 0 0 emptyMetrics) ≤ successCount r'
          ∧ errorCount (recordSuccess 5 0 0 0 emptyMetrics) ≤ errorCount r'.
Proof.
  assert (Hclear : Clear ∉ [OnQuery; OnError "SELECT 2" 1 undefined; SetLatency 3 false]).
  { repeat (apply not_elem_of_cons; split; [discriminate|]). apply not_elem_of_nil. }
  split; [exact Hclear|]. split; [reflexivity|].
  apply (counters_never_decrease_until_clear digits_to_marks
           [OnResult "SELECT 1" 5 0 0 0]
           [OnQuery; OnError "SELECT 2" 1 undefined; SetLatency 3 false]
           "SELECT ?" (recordSuccess 5 0 0 0 emptyMetrics) Hclear).
  reflexivity.
Defined.

Lemma other_keys_untouched_witness :
  OnResult "SELECT 1" 5 0 0 0 ≠ Clear
  ∧ ¬ completes digits_to_marks (OnResult "SELECT 1" 5 0 0 0) "SELECT ? FROM t"
  ∧ metrics (call digits_to_marks (OnResult "SELECT 1" 5 0 0 0)
               (onError digits_to_marks "SELECT 2 FROM t" 9 undefined new))
    !! "SELECT ? FROM t"
    = metrics (onError digits_to_marks "SELECT 2 FROM t" 9 undefined new)
      !! "SELECT ? FROM t".
Proof.
  assert (H1 : OnResult "SELECT 1" 5 0 0 0 ≠ Clear) by discriminate.
  assert (H2 : ¬ completes digits_to_marks (OnResult "SELECT 1" 5 0 0 0) "SELECT ? FROM t")
    by (intros H; discriminate H).
  split; [exact H1|]. split; [exact H2|].
  exact (other_keys_untouched digits_to_marks _ _ _ H1 H2).
Defined.

Lemma counters_count_completions_witness :
  (Clear ∉ [OnResult "SELECT 1" 5 0 0 0; OnQuery; OnError "SELECT 2" 1 undefined;
            OnResult "SELECT 3" 2 1 0 0])
  ∧ successCount
      (recordBefore
         (run digits_to_marks
            [OnResult "SELECT 1" 5 0 0 0; OnQuery; OnError "SELECT 2" 1 undefined;
             OnResult "SELECT 3" 2 1 0 0] (clear new)) "SELECT ?") = 2
  ∧ errorCount
      (recordBefore
         (run digits_to_marks
            [OnResult "SELECT 1" 5 0 0 0; OnQuery; OnError "SELECT 2" 1 undefined;
             OnResult "SELECT 3" 2 1 0 0] (clear new)) "SELECT ?") = 1.
Proof.
  assert (Hclear : Clear ∉ [OnResult "SELECT 1" 5 0 0 0; OnQuery;
                            OnError "SELECT 2" 1 undefined; OnResult "SELECT 3" 2 1 0 0]).
  { repeat (apply not_elem_of_cons; split; [discriminate|]). apply not_elem_of_nil. }
  split; [exact Hclear|].
  exact (counters_count_completions digits_to_marks _ "SELECT ?" new Hclear).
Defined.

Lemma uncounted_side_is_zero_witness :
  metrics (run digits_to_marks [OnError "SELECT 1" 3 undefined] new) !! "SELECT ?"
  = Some (recordError 3 emptyMetrics)
  ∧ (successCount (recordError 3 emptyMetrics) = 0 →
     successMillisecondsTotal (recordError 3 emptyMetrics) = 0
     ∧ successMillisecondsAverage (recordError 3 emptyMetrics) = JSInt 0)
  ∧ (errorCount (recordError 3 emptyMetrics) = 0 →
     errorMillisecondsTotal (recordError 3 emptyMetrics) = 0
     ∧ errorMillisecondsAverage (recordError 3 emptyMetrics) = JSInt 0).
Proof.
  split; [reflexivity|].
  apply (uncounted_side_is_zero digits_to_marks [OnError "SELECT 1" 3 undefined] "SELECT ?").
  reflexivity.
Defined.

Lemma totals_never_negative_nor_decrease_witness :
  (Clear ∉ [SetLatency 4 false; OnResult "SELECT 2" 1 0 0 0])
  ∧ metrics (run digits_to_marks [OnResult "SELECT 1" 5 0 0 0] new) !! "SELECT ?"
    = Some (recordSuccess 5 0 0 0 emptyMetrics)
  ∧ 0 ≤ successMillisecondsTotal (recordSuccess 5 0 0 0 emptyMetrics)
  ∧ 0 ≤ errorMillisecondsTotal (recordSuccess 5 0 0 0 emptyMetrics)
  ∧ ∃ r', metrics (run digits_to_marks
                     ([OnResult "SELECT 1" 5 0 0 0]
                      ++ [SetLatency 4 false; OnResult "SELECT 2" 1 0 0 0]) new)
          !! "SELECT ?" = Some r'
          ∧ successMillisecondsTotal (recordSuccess 5 0 0 0 emptyMetrics)
            ≤ successMillisecondsTotal r'
          ∧ errorMillisecondsTotal (recordSuccess 5 0 0 0 emptyMetrics)
            ≤ errorMillisecondsTotal r'.
Proof.
  assert (Hclear : Clear ∉ [SetLatency 4 false; OnResult "SELECT 2" 1 0 0 0]).
  { repeat (apply not_elem_of_cons; split; [discriminate|]). apply not_elem_of_nil. }
  split; [exact Hclear|]. split; [reflexivity|].
  apply (totals_never_negative_nor_decrease digits_to_marks
           [OnResult "SELECT 1" 5 0 0 0]
           [SetLatency 4 false; OnResult "SELECT 2" 1 0 0 0]
           "SELECT ?" (recordSuccess 5 0 0 0 emptyMetrics) Hclear).
  reflexivity.
Defined.

Lemma gauge_exact_when_matched_witness :
  (∀ n, 0 ≤ pending (take n [OnQuery; OnQuery; OnResult "SELECT 1" 5 0 0 0; OnQuery;
                             OnError "SELECT 2" 1 undefined]))
  ∧ runningQueriesCount
      (run digits_to_marks
         [OnQuery; OnQuery; OnResult "SELECT 1" 5 0 0 0; OnQuery;
          OnError "SELECT 2" 1 undefined] new) = 1.
Proof.
  assert (Hpre : ∀ n, 0 ≤ pending (take n [OnQuery; OnQuery; OnResult "SELECT 1" 5 0 0 0;
                                           OnQuery; OnError "SELECT 2" 1 undefined])).
  { intros n. do 5 (destruct n as [|n]; [simpl; lia|]). destruct n; simpl; lia. }
  split; [exact Hpre|].
  exact (gauge_exact_when_matched digits_to_marks _ Hpre).
Defined.

Lemma latency_is_minimum_without_reset_witness :
  noReset [SetLatency 50 false; OnQuery; SetLatency 80 false; SetLatency 20 false]
  ∧ (∀ ms, SetLatency ms false
           ∈ [SetLatency 50 false; OnQuery; SetLatency 80 false; SetLatency 20 false] →
       ∃ l, _nLatencyMilliseconds
              (run digits_to_marks
                 [SetLatency 50 false; OnQuery; SetLatency 80 false; SetLatency 20 false]
                 new) = Some l ∧ l ≤ ms)
  ∧ (∀ l, _nLatencyMilliseconds
            (run digits_to_marks
               [SetLatency 50 false; OnQuery; SetLatency 80 false; SetLatency 20 false]
               new) = Some l →
       SetLatency l false
       ∈ [SetLatency 50 false; OnQuery; SetLatency 80 false; SetLatency 20 false]).
Proof.
  assert (Hno : noReset [SetLatency 50 false; OnQuery; SetLatency 80 false;
                         SetLatency 20 false]).
  { intros ms b Hin.
    repeat (apply elem_of_cons in Hin as [Hin|Hin]; [by simplify_eq|]).
    by apply elem_of_nil in Hin. }
  split; [exact Hno|].
  exact (latency_is_minimum_without_reset digits_to_marks _ Hno).
Defined.


Lemma adapter_records_one_success_witness :
  (∀ h, Others h ∉ [Emit "fields" undefined; SetResults (Rows 3);
                    Emit "error" (VError "lost"); Emit "end" undefined])
  ∧ (let i := drive digits_to_marks sample_clock
                [Emit "fields" undefined; SetResults (Rows 3);
                 Emit "error" (VError "lost"); Emit "end" undefined]
                (enqueued sample_clock "SELECT 1" NoResult new 0) in
     (bHandled i = true
      ↔ Exists isTerminal [Emit "fields" undefined; SetResults (Rows 3);
                           Emit "error" (VError "lost"); Emit "end" undefined])
     ∧ (bHandled i = false → engine i = onQuery new)
     ∧ (bHandled i = true →
        ∃ d f a c, engine i = onResult digits_to_marks "SELECT 1" d f a c (onQuery new))).
Proof.
  assert (Hno : ∀ h, Others h ∉ [Emit "fields" undefined; SetResults (Rows 3);
                                 Emit "error" (VError "lost"); Emit "end" undefined]).
  { intros h Hin.
    repeat (apply elem_of_cons in Hin as [Hin|Hin]; [discriminate Hin|]).
    by apply elem_of_nil in Hin. }
  split; [exact Hno|].
  exact (adapter_records_one_success digits_to_marks sample_clock
           "SELECT 1" NoResult new 0 _ Hno).
Defined.

Lemma adapter_duration_is_time_to_first_fields_witness :
  sample_clock 1 ≠ sample_clock 0
  ∧ Forall (λ st, ¬ isTerminal st) [SetResults (Rows 3); Emit "fields" undefined]
  ∧ ("end" = "end" ∨ "end" = "error")
  ∧ (let i := drive digits_to_marks sample_clock
                [SetResults (Rows 3); Emit "fields" undefined]
                (emit digits_to_marks sample_clock "fields" undefined
                   (enqueued sample_clock "SELECT 1" NoResult new 0)) in
     engine (emit digits_to_marks sample_clock "end" undefined i)
     = let '(f, a, c) := rowCounts (sequence_results i) in
       onResult digits_to_marks "SELECT 1" (sample_clock 1 - sample_clock 0) f a c
         (engine i)).
Proof.
  assert (Hclock : sample_clock 1 ≠ sample_clock 0) by discriminate.
  assert (Hsteps : Forall (λ st, ¬ isTerminal st)
                     [SetResults (Rows 3); Emit "fields" undefined]).
  { apply Forall_cons; split; [by intros []|].
    apply Forall_cons; split; [by intros [?|?]|]. apply Forall_nil_2. }
  assert (Hname : "end" = "end" ∨ "end" = "error") by (by left).
  split; [exact Hclock|]. split; [exact Hsteps|]. split; [exact Hname|].
  exact (adapter_duration_is_time_to_first_fields digits_to_marks sample_clock
           "SELECT 1" NoResult new 0 undefined _ "end" undefined Hclock Hsteps Hname).
Defined.

Lemma averages_follow_totals_witness :
  metrics (run digits_to_marks
             [OnResult "SELECT 1" 7 0 0 0; OnResult "SELECT 2" 2 0 0 0] new) !! "SELECT ?"
  = Some (recordSuccess 2 0 0 0 (recordSuccess 7 0 0 0 emptyMetrics))
  ∧ successMillisecondsAverage (recordSuccess 2 0 0 0 (recordSuccess 7 0 0 0 emptyMetrics))
    = averageOf 9 2
  ∧ errorMillisecondsAverage (recordSuccess 2 0 0 0 (recordSuccess 7 0 0 0 emptyMetrics))
    = averageOf 0 0.
Proof.
  split; [reflexivity|].
  apply (averages_follow_totals digits_to_marks
           [OnResult "SELECT 1" 7 0 0 0; OnResult "SELECT 2" 2 0 0 0] "SELECT ?").
  reflexivity.
Defined.

Lemma averages_are_floors_in_range_witness :
  metrics (run digits_to_marks
             [OnResult "SELECT 1" 7 0 0 0; OnResult "SELECT 2" 2 0 0 0] new) !! "SELECT ?"
  = Some (recordSuccess 2 0 0 0 (recordSuccess 7 0 0 0 emptyMetrics))
  ∧ floorRange 9 2
  ∧ successMillisecondsAverage (recordSuccess 2 0 0 0 (recordSuccess 7 0 0 0 emptyMetrics))
    = JSInt 4.
Proof.
  assert (Hrange : floorRange 9 2) by (unfold floorRange; lia).
  split; [reflexivity|]. split; [exact Hrange|].
  exact (proj1 (averages_are_floors_in_range digits_to_marks
                  [OnResult "SELECT 1" 7 0 0 0; OnResult "SELECT 2" 2 0 0 0] "SELECT ?"
                  (recordSuccess 2 0 0 0 (recordSuccess 7 0 0 0 emptyMetrics)) eq_refl)
           Hrange).
Defined.

Lemma tiny_average_is_first_digit_witness :
  let this :=
    {| _mapQueryToMetrics :=
         {[ "SELECT ?" :=
              {| successCount := 1999999; errorCount := 0;
                 successMillisecondsTotal := 0; errorMillisecondsTotal := 0;
                 successMillisecondsAverage := JSInt 0; errorMillisecondsAverage := JSInt 0;
                 fetchedRows := JSInt 0; affectedRows := JSInt 0; changedRows := JSInt 0 |} ]};
       _nCurrentlyRunningQueries := 0;
       _nLatencyMilliseconds := None |} in
  tinyRange 1 2000000
  ∧ ∃ digit, 1 ≤ digit ≤ 9
      ∧ successMillisecondsAverage
          (recordBefore (onResult digits_to_marks "SELECT 1" 1 0 0 0 this) "SELECT ?")
        = JSInt digit
      ∧ successMillisecondsTotal
          (recordBefore (onResult digits_to_marks "SELECT 1" 1 0 0 0 this) "SELECT ?")
        / successCount
            (recordBefore (onResult digits_to_marks "SELECT 1" 1 0 0 0 this) "SELECT ?")
        = 0.
Proof.
  intros this.
  assert (Hrange : tinyRange 1 2000000) by (unfold tinyRange; lia).
  split; [exact Hrange|].
  exact (proj1 (tiny_average_is_first_digit digits_to_marks "SELECT 1" 1 0 0 0 undefined this)
           Hrange).
Defined.


Lemma adapter_restores_gauge_witness :
  (∀ h, Others h ∉ [Emit "fields" undefined; SetResults (Rows 3); Emit "end" undefined])
  ∧ 0 ≤ runningQueriesCount new
  ∧ runningQueriesCount
      (engine (drive digits_to_marks sample_clock
                 [Emit "fields" undefined; SetResults (Rows 3); Emit "end" undefined]
                 (enqueued sample_clock "SELECT 1" NoResult new 0)))
    = 0.
Proof.
  assert (Hno : ∀ h, Others h ∉ [Emit "fields" undefined; SetResults (Rows 3);
                                 Emit "end" undefined]).
  { intros h Hin.
    repeat (apply elem_of_cons in Hin as [Hin|Hin]; [discriminate Hin|]).
    by apply elem_of_nil in Hin. }
  assert (Hg : 0 ≤ runningQueriesCount new) by (unfold runningQueriesCount; simpl; lia).
  split; [exact Hno|]. split; [exact Hg|].
  exact (adapter_restores_gauge digits_to_marks sample_clock
           "SELECT 1" NoResult new 0 _ Hno Hg).
Defined.

Lemma adapter_attached_n_times_counts_n_times_witness :
  ("end" = "end" ∨ "end" = "error")
  ∧ 0 ≤ runningQueriesCount new
  ∧ (let '(closures, this1, clock1) :=
       enqueuedBy sample_clock 2 "SELECT 1" (Rows 3) new 0 in
     let '(_, this2, _) :=
       emitAll digits_to_marks sample_clock "end" undefined closures this1 clock1 in
     runningQueriesCount this1 = runningQueriesCount new + Z.of_nat 2
     ∧ successCount (recordBefore this2 (digits_to_marks "SELECT 1"))
       = successCount (recordBefore new (digits_to_marks "SELECT 1")) + Z.of_nat 2
     ∧ errorCount (recordBefore this2 (digits_to_marks "SELECT 1"))
       = errorCount (recordBefore new (digits_to_marks "SELECT 1"))
     ∧ runningQueriesCount this2 = runningQueriesCount new).
Proof.
  assert (Hname : "end" = "end" ∨ "end" = "error") by (by left).
  assert (Hg : 0 ≤ runningQueriesCount new) by (unfold runningQueriesCount; simpl; lia).
  split; [exact Hname|]. split; [exact Hg|].
  exact (adapter_attached_n_times_counts_n_times digits_to_marks sample_clock
           2 "SELECT 1" (Rows 3) new 0 "end" undefined Hname Hg).
Defined.

Lemma patch_serves_the_first_engine_only_witness :
  let w :=
    {| Legacy.engines := [Legacy.new; Legacy.new];
       Legacy.prototype :=
         {| Legacy._bPerformanceCountersPatchApplied := false; Legacy.query := [] |};
       Legacy.clockReads := 0 |} in
  Legacy._bPerformanceCountersPatchApplied (Legacy.prototype w) = false
  ∧ Legacy.query (Legacy.prototype w) = []
  ∧ (let w' :=
       fold_left (λ w self, Legacy.monkeyPatchPromiseMySQLJSConnection self w)
         [0; 1; 0]%nat w in
     Legacy.query (Legacy.prototype w') = [0%nat]
     ∧ let '(calls, w1) := Legacy.enter sample_clock (Legacy.query (Legacy.prototype w')) w' in
       let '(w2, handed) :=
         Legacy.settle digits_to_marks sample_clock "SELECT 1"
           (Legacy.Rejected (VError "lost")) calls w1 in
       Legacy.engines w1 = alter Legacy.onQuery 0%nat (Legacy.engines w)
       ∧ handed = Legacy.Rejected (VError "lost")
       ∧ Legacy.engines w2
         = [Legacy.onError digits_to_marks "SELECT 1" 7 (VError "lost")
              (Legacy.onQuery Legacy.new);
            Legacy.new]).
Proof.
  intros w. split; [reflexivity|]. split; [reflexivity|].
  exact (patch_serves_the_first_engine_only digits_to_marks sample_clock
           0%nat [1; 0]%nat w "SELECT 1" (Legacy.Rejected (VError "lost"))
           eq_refl eq_refl).
Defined.
